(** * KVS fragment processor: EBML vint and SimpleBlock decoding, tree walks

    A shallow embedding of [KvsFragementProcessor]
    (amazon_kinesis_video_consumer_library/kinesis_video_fragment_processor.py)
    and the properties its specification states about it. *)

From stdpp Require Import gmap strings list.
From Stdlib Require Import ZArith Lia.
From coqutil Require Import Byte.

Local Open Scope Z_scope.

(** ** Python outcomes *)

(** The exceptions the processor can raise: [KeyError] (missing Segment),
    [ValueError] (invalid vint), [IndexError] (subscript out of range, raised
    by the runtime) and [TypeError] ([int] of [None]). *)
Inductive exn := KeyError | ValueError | IndexError | TypeError.

Inductive result (A : Type) :=
| Ok (a : A)
| Raise (e : exn).
Arguments Ok {A} a.
Arguments Raise {A} e.

#[global] Instance result_ret : MRet result := fun _ a => Ok a.
#[global] Instance result_bind : MBind result := fun _ _ k r =>
  match r with
  | Ok a => k a
  | Raise e => Raise e
  end.

(** ** Byte buffers *)

(** [data[i]] on a [bytes] object: a negative subscript counts from the end,
    anything outside [-len, len) raises [IndexError]. *)
Definition py_index (data : list byte) (i : Z) : result byte :=
  let n := Z.of_nat (length data) in
  let j := if i <? 0 then i + n else i in
  if (0 <=? j) && (j <? n)
  then match data !! Z.to_nat j with
       | Some b => Ok b
       | None => Raise IndexError
       end
  else Raise IndexError.

(** [data[i:]]: the start is clipped to the buffer, never an error. *)
Definition py_slice_from (data : list byte) (i : Z) : list byte :=
  let n := Z.of_nat (length data) in
  let j := if i <? 0 then Z.max 0 (i + n) else Z.min i n in
  drop (Z.to_nat j) data.

(** [range(lo, hi)] *)
Definition py_range (lo hi : Z) : list Z :=
  map (fun k => lo + Z.of_nat k) (seq 0 (Z.to_nat (hi - lo))).

(** ** parse_vint *)

(** The marker-bit loop
    [while size <= 8 and not (first_byte & mask): mask >>= 1; size += 1].
    [n] counts the iterations still possible before [size] exceeds 8. *)
Fixpoint vint_scan (n : nat) (first_byte mask size : Z) : Z * Z :=
  match n with
  | O => (mask, size)
  | S n' =>
      if (size <=? 8) && (Z.land first_byte mask =? 0)
      then vint_scan n' first_byte (Z.shiftr mask 1) (size + 1)
      else (mask, size)
  end.

Definition vint_loop (first_byte mask size : Z) : Z * Z :=
  vint_scan (Z.to_nat (9 - size)) first_byte mask size.

(** The state [(mask, size)] the loop leaves for a given first byte. *)
Definition vint_marker (first_byte : byte) : Z * Z :=
  vint_loop (byte.unsigned first_byte) 0x80 1.

Definition vint_size (first_byte : byte) : Z := snd (vint_marker first_byte).

(** [for i in idxs: value = (value << 8) | data[offset + i]] *)
Fixpoint vint_value (data : list byte) (offset value : Z) (idxs : list Z)
  : result Z :=
  match idxs with
  | [] => Ok value
  | i :: rest =>
      b ← py_index data (offset + i);
      vint_value data offset (Z.lor (Z.shiftl value 8) (byte.unsigned b)) rest
  end.

Definition parse_vint (data : list byte) (offset : Z) : result (Z * Z) :=
  first_byte ← py_index data offset;
  let '(mask, size) := vint_marker first_byte in
  if 8 <? size then Raise ValueError
  else
    value ← vint_value data offset
               (Z.land (byte.unsigned first_byte) (mask - 1))
               (py_range 1 size);
    Ok (value, size).

(** Big-endian accumulation of a list of bytes, as the [for] loop does it. *)
Definition be_fold (value : Z) (bs : list byte) : Z :=
  fold_left (fun acc b => Z.lor (Z.shiftl acc 8) (byte.unsigned b)) bs value.

(** The loop's exit state for a first byte with a set bit, as a check:
    [size] is in 1..8, [mask] is [0x80 >> (size - 1)], it meets a set bit, and
    no earlier mask did. *)
Definition marker_found (b : byte) : bool :=
  let '(mask, size) := vint_marker b in
  (1 <=? size) && (size <=? 8)
  && (mask =? Z.shiftr 0x80 (size - 1))
  && negb (Z.land (byte.unsigned b) mask =? 0)
  && forallb (fun k => Z.land (byte.unsigned b) (Z.shiftr 0x80 (k - 1)) =? 0)
             (py_range 1 size).

(** The EBML encoding that [parse_vint] reads, written from the description
    of the format: [len] bytes, the first one holding the marker bit and below
    it the most significant bits of [value], the others following big-endian;
    that is the number [2 ^ (7 * len) + value] in [len] big-endian bytes. The
    processor has no encoder; this one states what a correctly encoded vint
    is. *)
Fixpoint be_bytes (n : nat) (v : Z) : list byte :=
  match n with
  | O => []
  | S n' => byte.of_Z (Z.shiftr v (8 * Z.of_nat n')) :: be_bytes n' v
  end.

Definition encode_vint (len : nat) (value : Z) : list byte :=
  be_bytes len (2 ^ (7 * Z.of_nat len) + value).

(** ** extract_simpleblock_data *)

Definition extract_simpleblock_data (byte_array : list byte)
  : result (Z * list byte) :=
  '(track_number, size) ← parse_vint byte_array 0;
  let payload_offset := size + 2 + 1 in
  let data_payload := py_slice_from byte_array payload_offset in
  Ok (track_number, data_payload).

(** ** Element tree *)

(** What [element.value] can be: a decoded integer, a decoded string, the raw
    [bytes] of a binary element, and [None]. *)
Inductive Value :=
| VNone
| VInt (z : Z)
| VStr (s : string)
| VBytes (b : list byte).

(** Modelled from the spec: the element classes of the ebmlite package, which
    the processor only imports. A node of the parsed fragment carries what the
    input contract names and the processor reads: [element.id],
    [element.value], [element.payloadOffset], [element.size], and the ordered
    children that [for child in element] yields (none for a leaf). *)
Module Element.
#[warnings="-register-all"]
Inductive t := mk {
  id : Z;
  value : Value;
  payloadOffset : Z;
  size : Z;
  children : list t
}.
End Element.
Abbreviation Element := Element.t.

#[global] Instance byte_eq_dec : EqDecision byte := Strings.Byte.byte_eq_dec.
#[global] Instance byte_countable : Countable byte :=
  inj_countable Strings.Byte.to_N Strings.Byte.of_N Strings.Byte.of_to_N.
#[global] Instance Value_eq_dec : EqDecision Value.
Proof. solve_decision. Defined.
#[global] Instance Value_countable : Countable Value :=
  inj_countable'
    (fun v => match v with
              | VNone => inl ()
              | VInt z => inr (inl z)
              | VStr s => inr (inr (inl s))
              | VBytes b => inr (inr (inr b))
              end)
    (fun x => match x with
              | inl _ => VNone
              | inr (inl z) => VInt z
              | inr (inr (inl s)) => VStr s
              | inr (inr (inr b)) => VBytes b
              end)
    (fun v => match v with
              | VNone | VInt _ | VStr _ | VBytes _ => eq_refl
              end).

(** [if v:] *)
Definition py_truthy (v : Value) : bool :=
  match v with
  | VNone => false
  | VInt z => negb (z =? 0)
  | VStr s => negb (String.eqb s "")
  | VBytes b => negb (bool_decide (b = []))
  end.

(** [v == "literal"] and [v == 0] *)
Definition py_eq_str (v : Value) (s : string) : bool :=
  match v with
  | VStr t => String.eqb t s
  | _ => false
  end.

Definition py_eq_int (v : Value) (z : Z) : bool :=
  match v with
  | VInt x => x =? z
  | _ => false
  end.

Section Processor.

(** [bool(element)], which [if not segment_element] evaluates. The element
    classes belong to the ebmlite package, so their truth value is a
    parameter: Python's default makes every object true, a class with
    [__len__] makes an element without children false. *)
Variable element_bool : Element -> bool.

(** [int(v)] for a [str] or [bytes] value (Python parses the text). *)
Variable int_of_text : Value -> result Z.

Definition py_int (v : Value) : result Z :=
  match v with
  | VInt z => Ok z
  | VNone => Raise TypeError
  | _ => int_of_text v
  end.

(** The Segment lookup shared by the three tree walks: the first top-level
    element with the Segment ID, [KeyError] if [not segment_element]. *)
Definition find_segment (fragment_dom : list Element) : result Element :=
  match List.find (fun element => Element.id element =? 0x18538067)
                  fragment_dom with
  | Some segment_element =>
      if element_bool segment_element then Ok segment_element
      else Raise KeyError
  | None => Raise KeyError
  end.

(** *** get_fragment_tags *)

Definition simple_tag_elements (segment_element : Element) : list Element :=
  flat_map (fun element =>
    if Element.id element =? 0x1254C367 then
      flat_map (fun tags =>
        if Element.id tags =? 0x7373 then
          List.filter (fun tag_type => Element.id tag_type =? 0x67C8)
                      (Element.children tags)
        else [])
        (Element.children element)
    else [])
    (Element.children segment_element).

(** [(tag_name, tag_value)] after the loop over one SimpleTag. *)
Definition tag_fields (simple_tag : Element) : Value * Value :=
  fold_left (fun '(tag_name, tag_value) element =>
    if Element.id element =? 0x45A3 then (Element.value element, tag_value)
    else if (Element.id element =? 0x4487) || (Element.id element =? 0x4485)
         then (tag_name, Element.value element)
         else (tag_name, tag_value))
    (Element.children simple_tag) (VNone, VNone).

Definition add_simple_tag (simple_tags_dict : gmap Value Value)
           (simple_tag : Element) : gmap Value Value :=
  let '(tag_name, tag_value) := tag_fields simple_tag in
  if py_truthy tag_name then <[tag_name := tag_value]> simple_tags_dict
  else simple_tags_dict.

Definition simple_tags_dict (elements : list Element) : gmap Value Value :=
  fold_left add_simple_tag elements ∅.

Definition get_fragment_tags (fragment_dom : list Element)
  : result (gmap Value Value) :=
  segment_element ← find_segment fragment_dom;
  Ok (simple_tags_dict (simple_tag_elements segment_element)).

(** *** get_simple_block_offset *)

Definition block_ref (el : Element) : Z * Z :=
  (Element.payloadOffset el, Element.size el).

(** The loop over the Segment's children; it leaves at the first Cluster. *)
Fixpoint scan_first_cluster (elements : list Element) : list (Z * Z) :=
  match elements with
  | [] => []
  | element :: rest =>
      if Element.id element =? 0x1F43B675 then
        map block_ref
            (List.filter (fun el => Element.id el =? 0xA3)
                         (Element.children element))
      else scan_first_cluster rest
  end.

Definition get_simple_block_offset (fragment_dom : list Element)
  : result (list (Z * Z)) :=
  segment_element ← find_segment fragment_dom;
  Ok (scan_first_cluster (Element.children segment_element)).

(** *** get_audio_tracks *)

(** [(track_number, track_name)] after the loop over one TrackEntry. *)
Definition track_entry_fields (el : Element) : Value * Value :=
  fold_left (fun '(track_number, track_name) e =>
    if Element.id e =? 0x536E then (track_number, Element.value e)
    else if Element.id e =? 0xD7 then (Element.value e, track_name)
         else (track_number, track_name))
    (Element.children el) (VInt (-1), VStr "").

(** One child of a Tracks element, acting on
    [(audio_from_customer_track, audio_to_customer_track)]. *)
Definition scan_track_entry (tracks : Value * Value) (el : Element)
  : Value * Value :=
  if Element.id el =? 0xAE then
    let '(track_number, track_name) := track_entry_fields el in
    if py_eq_str track_name "AUDIO_FROM_CUSTOMER"
    then (track_number, snd tracks)
    else if py_eq_str track_name "AUDIO_TO_CUSTOMER"
         then (fst tracks, track_number)
         else tracks
  else tracks.

Definition scan_tracks (segment_element : Element) : Value * Value :=
  fold_left (fun tracks element =>
    if Element.id element =? 0x1654AE6B
    then fold_left scan_track_entry (Element.children element) tracks
    else tracks)
    (Element.children segment_element) (VInt 0, VInt 0).

Definition get_audio_tracks (fragment_dom : list Element) : result (Z * Z) :=
  segment_element ← find_segment fragment_dom;
  let '(audio_from_customer_track, audio_to_customer_track) :=
    scan_tracks segment_element in
  let '(audio_from_customer_track, audio_to_customer_track) :=
    if py_eq_int audio_from_customer_track 0
       || py_eq_int audio_to_customer_track 0
    then (VInt 1, VInt 2)
    else (audio_from_customer_track, audio_to_customer_track) in
  a ← py_int audio_from_customer_track;
  b ← py_int audio_to_customer_track;
  Ok (a, b).

End Processor.


(** ** Vocabulary for the statements *)

(** [seg] is the element the Segment lookup stops at: the first top-level
    element carrying the Segment ID. *)
Definition first_segment (fragment_dom : list Element) (seg : Element) : Prop :=
  exists pre post,
    fragment_dom = pre ++ seg :: post
    /\ Forall (fun e => Element.id e <> 0x18538067) pre
    /\ Element.id seg = 0x18538067.

(** The TrackEntry elements under the Tracks containers of a Segment, in
    tree order, with the name and number the inner loop settles on. *)
Definition track_entries (segment_element : Element) : list Element :=
  flat_map (fun element =>
    if Element.id element =? 0x1654AE6B
    then List.filter (fun el => Element.id el =? 0xAE) (Element.children element)
    else [])
    (Element.children segment_element).

Definition entry_number (el : Element) : Value := fst (track_entry_fields el).
Definition entry_name (el : Element) : Value := snd (track_entry_fields el).

(** The name the loop over a SimpleTag settles on ([None] without TagName). *)
Definition tag_name (simple_tag : Element) : Value := fst (tag_fields simple_tag).

(** Two readings of [bool(element)]: every object is true, or an element is
    true when it has children. The second is the truth value of a container
    class that defines [__len__] over its children, which is how the master
    elements of ebmlite behave. *)
Definition object_bool (_ : Element) : bool := true.
Definition len_bool (e : Element) : bool :=
  negb (bool_decide (Element.children e = [])).

(** [int] of text left unparsed, for the examples (none of them needs it). *)
Definition no_text (_ : Value) : result Z := Raise ValueError.

(** ** Sample fragments *)

Definition leaf (i : Z) (v : Value) : Element := Element.mk i v 0 0 [].
Definition master (i : Z) (cs : list Element) : Element :=
  Element.mk i VNone 0 0 cs.
Definition block (offset size : Z) : Element :=
  Element.mk 0xA3 VNone offset size [].

Definition track_entry (number : Z) (name : string) : Element :=
  master 0xAE [leaf 0xD7 (VInt number); leaf 0x536E (VStr name)].
Definition simple_tag (name value : string) : Element :=
  master 0x67C8 [leaf 0x45A3 (VStr name); leaf 0x4487 (VStr value)].

Definition ebml_header : Element := master 0x1A45DFA3 [].

Definition sample_segment : Element :=
  master 0x18538067
    [master 0x1654AE6B
       [track_entry 1 "AUDIO_FROM_CUSTOMER"; track_entry 2 "AUDIO_TO_CUSTOMER"];
     master 0x1254C367
       [master 0x7373 [simple_tag "k" "v"; simple_tag "" "w"]];
     master 0x1F43B675 [block 40 10; leaf 0xE7 (VInt 0); block 55 12];
     master 0x1F43B675 [block 70 10]].

Definition sample_fragment : list Element := [ebml_header; sample_segment].

(** A Segment that is present but has no children. *)
Definition childless_segment : Element := master 0x18538067 [].

(** A Segment with tracks under other names, no Tags and no Cluster. *)
Definition bare_segment : Element :=
  master 0x18538067
    [master 0x1654AE6B [track_entry 1 "audio_from_customer"; track_entry 2 "OTHER"]].



(** ** The audio step of the consumer example *)

(** The value the loop over a SimpleTag settles on ([None] without
    TagString and TagBinary). *)
Definition tag_value (simple_tag : Element) : Value := snd (tag_fields simple_tag).

(** [data[lo:hi]]: both ends are taken from the end when negative and clipped
    to the buffer; an empty range gives an empty result. *)
Definition py_slice (data : list byte) (lo hi : Z) : list byte :=
  let n := Z.of_nat (length data) in
  let clip i := if i <? 0 then Z.max 0 (i + n) else Z.min i n in
  take (Z.to_nat (clip hi - clip lo)) (drop (Z.to_nat (clip lo)) data).

(** The two accumulators of [KvsPythonConsumerExample]
    (kvs_consumer_library_example.py) that [on_fragment_arrived] extends.
    The running duration [current_audio_length] is a float and is left out. *)
Record audio := mk_audio {
  audio_from_customer : list byte;
  audio_to_customer : list byte
}.

(** The sizes for which [float(size)] is finite. The duration bookkeeping
    that ends each turn of the loop is floating point and not modelled; it
    raises nothing for these sizes ([float] overflows only from about
    [2 ^ 1024] on), which is what the statements on completed turns assume. *)
Definition float_ok (size : Z) : Prop := - 2 ^ 1023 < size < 2 ^ 1023.

(** One turn of the loop [for offset, size in simple_block_elements]: decode
    the block cut out of [fragment_bytes] and extend the accumulator of its
    track. An exception leaves the accumulators as they were. *)
Definition add_audio_block (fragment_bytes : list byte)
           (audio_from_customer_track audio_to_customer_track : Z)
           (st : audio) (ref : Z * Z) : result audio :=
  let '(offset, size) := ref in
  '(track_number, data_payload) ←
    extract_simpleblock_data (py_slice fragment_bytes offset (offset + size));
  if track_number =? audio_from_customer_track then
    Ok (mk_audio (audio_from_customer st ++ data_payload) (audio_to_customer st))
  else if track_number =? audio_to_customer_track then
    Ok (mk_audio (audio_from_customer st) (audio_to_customer st ++ data_payload))
  else Ok st.

(** The loop: it stops at the first exception, which the [except] clause of
    [on_fragment_arrived] then logs; what was appended before stays. *)
Fixpoint add_audio_blocks (fragment_bytes : list byte)
         (audio_from_customer_track audio_to_customer_track : Z)
         (st : audio) (simple_block_elements : list (Z * Z))
  : audio * option exn :=
  match simple_block_elements with
  | [] => (st, None)
  | ref :: rest =>
      match add_audio_block fragment_bytes audio_from_customer_track
                            audio_to_customer_track st ref with
      | Ok st' =>
          add_audio_blocks fragment_bytes audio_from_customer_track
                           audio_to_customer_track st' rest
      | Raise e => (st, Some e)
      end
  end.

(** Step 3 of [on_fragment_arrived], "add audio to customer and agent". *)
Definition add_audio (element_bool : Element -> bool)
           (int_of_text : Value -> result Z)
           (fragment_bytes : list byte) (fragment_dom : list Element)
           (st : audio) : audio * option exn :=
  match get_simple_block_offset element_bool fragment_dom with
  | Raise e => (st, Some e)
  | Ok simple_block_elements =>
      match get_audio_tracks element_bool int_of_text fragment_dom with
      | Raise e => (st, Some e)
      | Ok (audio_from_customer_track, audio_to_customer_track) =>
          add_audio_blocks fragment_bytes audio_from_customer_track
                           audio_to_customer_track st simple_block_elements
      end
  end.

(** The blocks a list of references cuts out of the fragment, decoded. *)
Definition decode_block (fragment_bytes : list byte) (ref : Z * Z)
  : result (Z * list byte) :=
  extract_simpleblock_data
    (py_slice fragment_bytes (fst ref) (fst ref + snd ref)).

(** The payloads of the decoded blocks that go to each accumulator: those of
    the "from" track, and those of the "to" track that are not also "from". *)
Definition payloads_from (from_track : Z) (blocks : list (Z * list byte))
  : list byte :=
  concat (map snd (List.filter (fun b => fst b =? from_track) blocks)).

Definition payloads_to (from_track to_track : Z) (blocks : list (Z * list byte))
  : list byte :=
  concat (map snd (List.filter
                     (fun b => negb (fst b =? from_track) && (fst b =? to_track))
                     blocks)).

(** A SimpleBlock as a producer lays it out: the track number as a vint, two
    timestamp bytes, the flags byte, the payload. *)
Definition simple_block_bytes (len : nat) (track_number : Z)
           (t1 t2 flags : byte) (payload : list byte) : list byte :=
  encode_vint len track_number ++ t1 :: t2 :: flags :: payload.

(** A fragment buffer holding two blocks behind a 4-byte lead: track 1 with
    payload [AA BB] at offset 4, track 2 with payload [CC] at offset 10. *)
Definition sample_bytes : list byte :=
  [Init.Byte.x1a; Init.Byte.x45; Init.Byte.xdf; Init.Byte.xa3]
  ++ simple_block_bytes 1 1 Init.Byte.x00 Init.Byte.x00 Init.Byte.x80
       [Init.Byte.xaa; Init.Byte.xbb]
  ++ simple_block_bytes 1 2 Init.Byte.x00 Init.Byte.x14 Init.Byte.x80
       [Init.Byte.xcc].

Definition no_audio : audio := mk_audio [] [].

(** A Segment whose tags repeat the name "k", and hold a name without value. *)
Definition repeated_tag_segment : Element :=
  master 0x18538067
    [master 0x1254C367
       [master 0x7373
          [simple_tag "k" "v1"; master 0x67C8 [leaf 0x45A3 (VStr "n")];
           simple_tag "k" "v2"]]].

(** A Segment naming the "from" role twice, on tracks 1 and 5. *)
Definition repeated_role_segment : Element :=
  master 0x18538067
    [master 0x1654AE6B
       [track_entry 1 "AUDIO_FROM_CUSTOMER"; track_entry 2 "AUDIO_TO_CUSTOMER";
        track_entry 5 "AUDIO_FROM_CUSTOMER"]].

(** A Segment whose "from" entry has no TrackNumber child. *)
Definition unnumbered_role_segment : Element :=
  master 0x18538067
    [master 0x1654AE6B
       [master 0xAE [leaf 0x536E (VStr "AUDIO_FROM_CUSTOMER")];
        track_entry 2 "AUDIO_TO_CUSTOMER"]].

(** * Properties *)

(** ** The marker-bit loop *)

(** The defining equation of the [while] loop: the bounded recursion above
    stops only where the loop itself would. *)
Lemma vint_loop_eq (first_byte mask size : Z) :
  vint_loop first_byte mask size =
  if (size <=? 8) && (Z.land first_byte mask =? 0)
  then vint_loop first_byte (Z.shiftr mask 1) (size + 1)
  else (mask, size).
Proof.
  unfold vint_loop.
  destruct (Z.leb_spec size 8) as [Hle | Hgt].
  - replace (Z.to_nat (9 - size)) with (S (Z.to_nat (9 - (size + 1)))) by lia.
    cbn [vint_scan]. rewrite (proj2 (Z.leb_le _ _) Hle). reflexivity.
  - replace (Z.to_nat (9 - size)) with O by lia. reflexivity.
Qed.

(** Closed form of the loop on a byte: the marker is the highest set bit. *)
Lemma vint_marker_log2 (b : byte) :
  vint_marker b =
  if byte.unsigned b =? 0 then (0, 9)
  else (2 ^ Z.log2 (byte.unsigned b), 8 - Z.log2 (byte.unsigned b)).
Proof. destruct b; vm_compute; reflexivity. Qed.

Lemma vint_size_range (b : byte) : 1 <= vint_size b <= 9.
Proof.
  unfold vint_size. rewrite vint_marker_log2.
  pose proof (byte.unsigned_range b) as Hb.
  destruct (Z.eqb_spec (byte.unsigned b) 0) as [E | NE]; cbn [snd]; [lia |].
  assert (Z.log2 (byte.unsigned b) < 8) by (apply Z.log2_lt_pow2; lia).
  pose proof (Z.log2_nonneg (byte.unsigned b)). lia.
Qed.

(** ** Subscripts and ranges *)

Lemma py_index_nonneg (data : list byte) (i : Z) :
  0 <= i ->
  py_index data i =
  match data !! Z.to_nat i with
  | Some b => Ok b
  | None => Raise IndexError
  end.
Proof.
  intros Hi. unfold py_index.
  destruct (Z.ltb_spec i 0) as [? | _]; [lia |].
  destruct (Z.leb_spec 0 i) as [_ | ?]; [| lia].
  destruct (Z.ltb_spec i (Z.of_nat (length data))) as [Hlt | Hge]; cbn [andb].
  - reflexivity.
  - rewrite lookup_ge_None_2 by lia. reflexivity.
Qed.

Lemma py_range_nil (lo hi : Z) : hi <= lo -> py_range lo hi = [].
Proof. intros H. unfold py_range. replace (Z.to_nat (hi - lo)) with O by lia. reflexivity. Qed.

Lemma py_range_cons (lo hi : Z) :
  lo < hi -> py_range lo hi = lo :: py_range (lo + 1) hi.
Proof.
  intros H. unfold py_range.
  replace (Z.to_nat (hi - lo)) with (S (Z.to_nat (hi - (lo + 1)))) by lia.
  cbn [seq map]. f_equal; [lia |].
  rewrite <- seq_shift, map_map. apply map_ext. intros k. lia.
Qed.

(** When the bytes are there, the loop over subscripts reads them in order. *)
Lemma vint_value_in_range (data : list byte) (offset : Z) (n : nat) :
  forall lo value,
    0 <= offset + lo ->
    offset + lo + Z.of_nat n <= Z.of_nat (length data) ->
    vint_value data offset value (py_range lo (lo + Z.of_nat n)) =
    Ok (be_fold value (take n (drop (Z.to_nat (offset + lo)) data))).
Proof.
  induction n as [| n IH]; intros lo value Hlo Hhi.
  - rewrite py_range_nil by lia. reflexivity.
  - rewrite py_range_cons by lia. cbn [vint_value].
    rewrite py_index_nonneg by lia.
    destruct (data !! Z.to_nat (offset + lo)) as [b |] eqn:Hb.
    2: { apply lookup_ge_None_1 in Hb. lia. }
    cbn. replace (lo + Z.of_nat (S n)) with (lo + 1 + Z.of_nat n) by lia.
    rewrite IH by lia.
    rewrite (drop_S _ _ _ Hb). cbn [take be_fold fold_left].
    replace (Z.to_nat (offset + (lo + 1))) with (S (Z.to_nat (offset + lo))) by lia.
    reflexivity.
Qed.

(** When the buffer ends inside the range, the loop raises [IndexError]. *)
Lemma vint_value_short (data : list byte) (offset : Z) (n : nat) :
  forall lo value,
    0 <= offset + lo <= Z.of_nat (length data) ->
    Z.of_nat (length data) < offset + lo + Z.of_nat n ->
    vint_value data offset value (py_range lo (lo + Z.of_nat n)) =
    Raise IndexError.
Proof.
  induction n as [| n IH]; intros lo value Hlo Hhi; [lia |].
  rewrite py_range_cons by lia. cbn [vint_value].
  rewrite py_index_nonneg by lia.
  destruct (data !! Z.to_nat (offset + lo)) as [b |] eqn:Hb; [| reflexivity].
  cbn. replace (lo + Z.of_nat (S n)) with (lo + 1 + Z.of_nat n) by lia.
  apply lookup_lt_Some in Hb.
  apply IH; lia.
Qed.

Lemma in_py_range (lo hi k : Z) : In k (py_range lo hi) <-> lo <= k < hi.
Proof.
  unfold py_range. rewrite in_map_iff. split.
  - intros (j & <- & Hj). apply in_seq in Hj. lia.
  - intros Hk. exists (Z.to_nat (k - lo)). split; [lia |]. apply in_seq. lia.
Qed.

(** ** parse_vint *)

Lemma parse_vint_first (data : list byte) (offset : Z) (b : byte) :
  py_index data offset = Ok b ->
  parse_vint data offset =
  if 8 <? vint_size b then Raise ValueError
  else
    value ← vint_value data offset
               (Z.land (byte.unsigned b) (fst (vint_marker b) - 1))
               (py_range 1 (vint_size b));
    Ok (value, vint_size b).
Proof.
  intros H. unfold parse_vint. rewrite H. cbn.
  unfold vint_size. destruct (vint_marker b). reflexivity.
Qed.

(** The whole vint lies in the buffer: the decoder returns its bytes
    accumulated big-endian, and its length. *)
Lemma parse_vint_present (data : list byte) (offset : Z) (b : byte) :
  0 <= offset ->
  py_index data offset = Ok b ->
  vint_size b <= 8 ->
  offset + vint_size b <= Z.of_nat (length data) ->
  parse_vint data offset =
  Ok (be_fold (Z.land (byte.unsigned b) (fst (vint_marker b) - 1))
              (take (Z.to_nat (vint_size b - 1))
                    (drop (Z.to_nat (offset + 1)) data)),
      vint_size b).
Proof.
  intros Hoff Hb Hsz Hlen. rewrite (parse_vint_first _ _ _ Hb).
  pose proof (vint_size_range b) as Hr.
  destruct (Z.ltb_spec 8 (vint_size b)) as [? | _]; [lia |].
  replace (vint_size b) with (1 + Z.of_nat (Z.to_nat (vint_size b - 1))) at 1 by lia.
  rewrite vint_value_in_range by lia. reflexivity.
Qed.

Lemma parse_vint_short (data : list byte) (offset : Z) (b : byte) :
  0 <= offset ->
  py_index data offset = Ok b ->
  vint_size b <= 8 ->
  Z.of_nat (length data) < offset + vint_size b ->
  parse_vint data offset = Raise IndexError.
Proof.
  intros Hoff Hb Hsz Hlen. rewrite (parse_vint_first _ _ _ Hb).
  pose proof (vint_size_range b) as Hr.
  destruct (Z.ltb_spec 8 (vint_size b)) as [? | _]; [lia |].
  rewrite py_index_nonneg in Hb by lia.
  destruct (data !! Z.to_nat offset) as [b' |] eqn:Hl; [| discriminate].
  apply lookup_lt_Some in Hl.
  replace (vint_size b) with (1 + Z.of_nat (Z.to_nat (vint_size b - 1))) at 1 by lia.
  rewrite vint_value_short by lia. reflexivity.
Qed.

Lemma marker_found_nonzero (b : byte) :
  b <> Init.Byte.x00 -> marker_found b = true.
Proof. destruct b; intros H; try congruence; vm_compute; reflexivity. Qed.

Lemma parse_vint_ok_inv (data : list byte) (offset value size : Z) :
  parse_vint data offset = Ok (value, size) ->
  exists b, py_index data offset = Ok b /\ size = vint_size b /\ 1 <= size <= 8.
Proof.
  intros Hp. destruct (py_index data offset) as [b | e] eqn:Hb.
  2: { unfold parse_vint in Hp. rewrite Hb in Hp. discriminate. }
  rewrite (parse_vint_first _ _ _ Hb) in Hp.
  pose proof (vint_size_range b) as Hr.
  destruct (Z.ltb_spec 8 (vint_size b)) as [? | Hle]; [discriminate |].
  exists b. destruct (vint_value _ _ _ _); cbn in Hp; [| discriminate].
  injection Hp as _ <-. repeat split; lia.
Qed.

(** C2: at a buffer position [offset], when the first byte announces a
    length of [L] bytes (1 to 8) and the buffer holds fewer than [L] bytes
    from [offset] on, [parse_vint] fails with the out-of-range error,
    [IndexError], and returns no value. *)
Theorem parse_vint_out_of_range (data : list byte) (offset : Z) (b : byte) :
  0 <= offset ->
  py_index data offset = Ok b ->
  1 <= vint_size b <= 8 ->
  Z.of_nat (length data) - offset < vint_size b ->
  parse_vint data offset = Raise IndexError.
Proof.
  intros Hoff Hb Hsz Hlen. apply (parse_vint_short data offset b); lia || assumption.
Qed.

Lemma parse_vint_out_of_range_witness :
  parse_vint [Init.Byte.x00; Init.Byte.x20; Init.Byte.x01] 1 = Raise IndexError.
Proof.
  apply (parse_vint_out_of_range _ 1 Init.Byte.x20).
  - lia.
  - reflexivity.
  - vm_compute. split; discriminate.
  - vm_compute. reflexivity.
Defined.

(** A negative offset is a Python subscript counted from the end of the
    buffer, and so are the subscripts that follow it. *)
Example parse_vint_negative_offset :
  py_index [Init.Byte.x05; Init.Byte.x40] (-1) = Ok Init.Byte.x40
  /\ parse_vint [Init.Byte.x05; Init.Byte.x40] (-1) = Ok (5, 2).
Proof. repeat split. Qed.

(** C8: a first byte [0x00] makes [parse_vint] fail with the invalid-vint
    error, [ValueError]; for any other first byte the loop stops with a length
    between 1 and 8, the mask being [0x80] shifted right until it meets a set
    bit, and that length is the one [parse_vint] returns. *)
Theorem parse_vint_marker_bit :
  (forall data offset,
      py_index data offset = Ok Init.Byte.x00 ->
      parse_vint data offset = Raise ValueError)
  /\ (forall b,
        b <> Init.Byte.x00 ->
        1 <= vint_size b <= 8
        /\ fst (vint_marker b) = Z.shiftr 0x80 (vint_size b - 1)
        /\ Z.land (byte.unsigned b) (fst (vint_marker b)) <> 0
        /\ forall k, 1 <= k < vint_size b ->
                     Z.land (byte.unsigned b) (Z.shiftr 0x80 (k - 1)) = 0)
  /\ (forall data offset b value size,
        py_index data offset = Ok b ->
        parse_vint data offset = Ok (value, size) ->
        b <> Init.Byte.x00 /\ size = vint_size b).
Proof.
  split; [| split].
  - intros data offset H. rewrite (parse_vint_first _ _ _ H). reflexivity.
  - intros b Hb. pose proof (marker_found_nonzero b Hb) as Hm.
    unfold marker_found, vint_size in *.
    destruct (vint_marker b) as [mask size]. cbn [fst snd].
    repeat (apply andb_prop in Hm; destruct Hm as [Hm ?]).
    repeat split.
    + lia.
    + lia.
    + lia.
    + destruct (Z.eqb_spec (Z.land (byte.unsigned b) mask) 0); [discriminate | assumption].
    + intros k Hk.
      match goal with
      | Hf : forallb _ _ = true |- _ =>
          rewrite forallb_forall in Hf; specialize (Hf k)
      end.
      rewrite in_py_range in *. lia.
  - intros data offset b value size Hb Hp.
    destruct (parse_vint_ok_inv _ _ _ _ Hp) as (b' & Hb' & -> & Hr).
    rewrite Hb in Hb'. injection Hb' as <-. split; [| reflexivity].
    intros ->. change (vint_size Init.Byte.x00) with 9 in Hr. lia.
Qed.

Lemma parse_vint_marker_bit_witness :
  parse_vint [Init.Byte.x00; Init.Byte.x05] 0 = Raise ValueError
  /\ vint_size Init.Byte.x1f = 4
  /\ vint_size Init.Byte.x40 = 2.
Proof.
  destruct parse_vint_marker_bit as (Hzero & Hset & Hret).
  split; [| split].
  - apply Hzero. reflexivity.
  - destruct (Hset Init.Byte.x1f) as (_ & _ & _ & _); [discriminate | reflexivity].
  - apply (Hret [Init.Byte.x40; Init.Byte.x05] 0 Init.Byte.x40 5 2); reflexivity.
Defined.

(** ** extract_simpleblock_data *)

Lemma py_slice_from_nonneg (data : list byte) (i : Z) :
  0 <= i -> py_slice_from data i = drop (Z.to_nat i) data.
Proof.
  intros Hi. unfold py_slice_from.
  destruct (Z.ltb_spec i 0) as [? | _]; [lia |].
  destruct (Z.le_gt_cases i (Z.of_nat (length data))) as [Hle | Hgt].
  - rewrite Z.min_l by lia. reflexivity.
  - rewrite Z.min_r by lia. rewrite !drop_ge by lia. reflexivity.
Qed.

Lemma extract_simpleblock_data_ok (raw : list byte) (track_number size : Z) :
  parse_vint raw 0 = Ok (track_number, size) ->
  extract_simpleblock_data raw =
  Ok (track_number, drop (Z.to_nat (size + 3)) raw).
Proof.
  intros Hp. destruct (parse_vint_ok_inv _ _ _ _ Hp) as (b & _ & _ & Hr).
  unfold extract_simpleblock_data. rewrite Hp. cbn.
  rewrite py_slice_from_nonneg by lia.
  replace (size + 2 + 1) with (size + 3) by lia. reflexivity.
Qed.

(** C4: on a SimpleBlock of at least [vintLength + 3] bytes,
    [extract_simpleblock_data] returns the value of the leading vint as the
    track number and the bytes [raw[vintLength+3:]] unchanged as the payload;
    on [81 00 00 00 AA BB] that is track 1 and payload [AA BB]. *)
Theorem extract_simpleblock_data_payload :
  (forall raw track_number vint_length,
      parse_vint raw 0 = Ok (track_number, vint_length) ->
      vint_length + 3 <= Z.of_nat (length raw) ->
      extract_simpleblock_data raw =
      Ok (track_number, drop (Z.to_nat (vint_length + 3)) raw))
  /\ extract_simpleblock_data
       [Init.Byte.x81; Init.Byte.x00; Init.Byte.x00; Init.Byte.x00;
        Init.Byte.xaa; Init.Byte.xbb]
     = Ok (1, [Init.Byte.xaa; Init.Byte.xbb]).
Proof.
  split; [| reflexivity].
  intros raw track_number vint_length Hp _.
  apply extract_simpleblock_data_ok, Hp.
Qed.

Lemma extract_simpleblock_data_payload_witness :
  extract_simpleblock_data
    [Init.Byte.x40; Init.Byte.x05; Init.Byte.x00; Init.Byte.x10;
     Init.Byte.x80; Init.Byte.x01; Init.Byte.x02; Init.Byte.x03]
  = Ok (5, [Init.Byte.x01; Init.Byte.x02; Init.Byte.x03]).
Proof.
  refine (proj1 extract_simpleblock_data_payload
            [Init.Byte.x40; Init.Byte.x05; Init.Byte.x00; Init.Byte.x10;
             Init.Byte.x80; Init.Byte.x01; Init.Byte.x02; Init.Byte.x03]
            5 2 _ _).
  - reflexivity.
  - vm_compute. discriminate.
Defined.

(** C1, as the processor behaves: a SimpleBlock shorter than
    [vintLength + 3] bytes raises no truncated-block error. With the whole vint
    present the result is the track number and an empty payload; with the vint
    itself cut short the vint read fails with [IndexError]. *)
Theorem extract_simpleblock_data_short (raw : list byte) (b : byte) :
  py_index raw 0 = Ok b ->
  1 <= vint_size b <= 8 ->
  Z.of_nat (length raw) < vint_size b + 3 ->
  (vint_size b <= Z.of_nat (length raw) ->
   exists track_number,
     parse_vint raw 0 = Ok (track_number, vint_size b)
     /\ extract_simpleblock_data raw = Ok (track_number, []))
  /\ (Z.of_nat (length raw) < vint_size b ->
      extract_simpleblock_data raw = Raise IndexError).
Proof.
  intros Hb Hsz Hlen. split.
  - intros Hfull.
    pose proof (parse_vint_present raw 0 b ltac:(lia) Hb ltac:(lia) ltac:(lia)) as Hp.
    set (track_number := be_fold _ _) in Hp.
    exists track_number. split; [exact Hp |].
    rewrite (extract_simpleblock_data_ok _ _ _ Hp).
    rewrite drop_ge by lia. reflexivity.
  - intros Hcut. unfold extract_simpleblock_data.
    rewrite (parse_vint_short raw 0 b) by (lia || assumption). reflexivity.
Qed.

Lemma extract_simpleblock_data_short_witness :
  (exists track_number,
      parse_vint [Init.Byte.x40; Init.Byte.x05; Init.Byte.x00] 0
      = Ok (track_number, 2)
      /\ extract_simpleblock_data [Init.Byte.x40; Init.Byte.x05; Init.Byte.x00]
         = Ok (track_number, [])).
Proof.
  apply (extract_simpleblock_data_short
           [Init.Byte.x40; Init.Byte.x05; Init.Byte.x00] Init.Byte.x40).
  - reflexivity.
  - vm_compute. split; discriminate.
  - vm_compute. reflexivity.
  - vm_compute. discriminate.
Defined.

(** C1 as stated fails: the one-byte block [81] is shorter than
    [vintLength + 3 = 4] bytes, yet it decodes to track 1 with an empty
    payload instead of raising. *)
Lemma extract_simpleblock_data_truncated_counterexample :
  py_index [Init.Byte.x81] 0 = Ok Init.Byte.x81
  /\ Z.of_nat (length [Init.Byte.x81]) < vint_size Init.Byte.x81 + 3
  /\ extract_simpleblock_data [Init.Byte.x81] = Ok (1, [])
  /\ ~ (exists e, extract_simpleblock_data [Init.Byte.x81] = Raise e).
Proof.
  repeat split.
  intros [e He]. discriminate He.
Qed.

(** ** Round trip through the EBML encoding *)

Lemma lor_shiftl_byte (acc c : Z) :
  0 <= c < 256 -> Z.lor (Z.shiftl acc 8) c = acc * 256 + c.
Proof.
  intros Hc. rewrite Z.shiftl_mul_pow2 by lia. change (2 ^ 8) with 256.
  rewrite <- Z.lxor_lor, <- Z.add_nocarry_lxor; try reflexivity.
  all: apply Z.bits_inj'; intros i Hi; rewrite Z.land_spec, Z.bits_0.
  all: destruct (Z.lt_ge_cases i 8) as [Hlo | Hhi].
  all: try (change 256 with (2 ^ 8); rewrite Z.mul_pow2_bits_low by lia; reflexivity).
  all: rewrite <- (Z.mod_small c (2 ^ 8)) by (change (2 ^ 8) with 256; lia).
  all: rewrite Z.mod_pow2_bits_high by lia; apply andb_false_r.
Qed.

Lemma be_bytes_length (n : nat) (v : Z) : length (be_bytes n v) = n.
Proof. induction n as [| n IH]; cbn; [reflexivity | now rewrite IH]. Qed.

(** Reading back [n] big-endian bytes of [x] shifts the accumulator by [n]
    bytes and adds the low [n] bytes of [x]. *)
Lemma be_fold_be_bytes (n : nat) :
  forall acc x,
    be_fold acc (be_bytes n x) = acc * 2 ^ (8 * Z.of_nat n) + x mod 2 ^ (8 * Z.of_nat n).
Proof.
  induction n as [| n IH]; intros acc x.
  - cbn. rewrite Z.mod_1_r. lia.
  - cbn [be_bytes be_fold fold_left]. fold (be_fold (Z.lor (Z.shiftl acc 8)
      (byte.unsigned (byte.of_Z (Z.shiftr x (8 * Z.of_nat n))))) (be_bytes n x)).
    rewrite byte.unsigned_of_Z. unfold byte.wrap. change (2 ^ 8) with 256.
    rewrite lor_shiftl_byte by (apply Z.mod_pos_bound; lia).
    rewrite IH, Z.shiftr_div_pow2 by lia.
    replace (8 * Z.of_nat (S n)) with (8 * Z.of_nat n + 8) by lia.
    rewrite Z.pow_add_r by lia. change (2 ^ 8) with 256.
    rewrite (Z.rem_mul_r x (2 ^ (8 * Z.of_nat n)) 256) by lia.
    ring.
Qed.

(** The first byte of an encoded vint carries the marker at bit [8 - len]. *)
Lemma encode_vint_first_byte (n : nat) (value : Z) :
  (n <= 7)%nat ->
  0 <= value < 2 ^ (7 * Z.of_nat (S n)) ->
  let b := byte.of_Z (Z.shiftr (2 ^ (7 * Z.of_nat (S n)) + value) (8 * Z.of_nat n)) in
  byte.unsigned b = 2 ^ (7 - Z.of_nat n) + value / 2 ^ (8 * Z.of_nat n)
  /\ 0 <= value / 2 ^ (8 * Z.of_nat n) < 2 ^ (7 - Z.of_nat n)
  /\ vint_marker b = (2 ^ (7 - Z.of_nat n), Z.of_nat (S n)).
Proof.
  intros Hn Hv b.
  set (P := 2 ^ (8 * Z.of_nat n)). set (M := 2 ^ (7 - Z.of_nat n)).
  assert (HP : 0 < P) by (apply Z.pow_pos_nonneg; lia).
  assert (HM : 0 < M) by (apply Z.pow_pos_nonneg; lia).
  assert (Hsplit : 2 ^ (7 * Z.of_nat (S n)) = M * P).
  { unfold M, P. rewrite <- Z.pow_add_r by lia. f_equal. lia. }
  assert (HM2 : 2 * M <= 256).
  { unfold M. change 256 with (2 ^ 8).
    replace (2 * 2 ^ (7 - Z.of_nat n)) with (2 ^ (8 - Z.of_nat n)).
    - apply Z.pow_le_mono_r; lia.
    - replace (8 - Z.of_nat n) with (Z.succ (7 - Z.of_nat n)) by lia.
      rewrite Z.pow_succ_r by lia. reflexivity. }
  assert (Hq : 0 <= value / P < M).
  { split; [apply Z.div_pos; lia |].
    apply Z.div_lt_upper_bound; [lia |]. rewrite Z.mul_comm. lia. }
  assert (Hu : byte.unsigned b = M + value / P).
  { unfold b. rewrite byte.unsigned_of_Z. unfold byte.wrap.
    rewrite Z.shiftr_div_pow2 by lia. fold P. rewrite Hsplit.
    rewrite Z.div_add_l by lia. change (2 ^ 8) with 256.
    apply Z.mod_small. lia. }
  split; [exact Hu |]. split; [exact Hq |].
  rewrite vint_marker_log2, Hu.
  destruct (Z.eqb_spec (M + value / P) 0) as [? | _]; [lia |].
  assert (Hlog : Z.log2 (M + value / P) = 7 - Z.of_nat n).
  { apply Z.log2_unique; [lia |]. fold M.
    replace (2 ^ Z.succ (7 - Z.of_nat n)) with (2 * M)
      by (unfold M; rewrite Z.pow_succ_r by lia; reflexivity).
    lia. }
  rewrite Hlog. fold M. f_equal. lia.
Qed.

(** C3: decoding the [len]-byte encoding of [value] at offset 0 returns
    [(value, len)], for every length from 1 to 8 and every value that fits in
    [7 * len] bits; in particular [81] decodes to [(1, 1)] and [40 05] to
    [(5, 2)]. *)
Theorem parse_vint_encode_vint :
  (forall (len : nat) (value : Z),
      (1 <= len <= 8)%nat ->
      0 <= value < 2 ^ (7 * Z.of_nat len) ->
      parse_vint (encode_vint len value) 0 = Ok (value, Z.of_nat len))
  /\ parse_vint [Init.Byte.x81] 0 = Ok (1, 1)
  /\ parse_vint [Init.Byte.x40; Init.Byte.x05] 0 = Ok (5, 2).
Proof.
  split; [| split; reflexivity].
  intros [| n] value Hlen Hv; [lia |].
  destruct (encode_vint_first_byte n value ltac:(lia) Hv) as (Hu & Hq & Hm).
  unfold encode_vint. cbn [be_bytes].
  set (x := 2 ^ (7 * Z.of_nat (S n)) + value) in *.
  set (b := byte.of_Z (Z.shiftr x (8 * Z.of_nat n))) in *.
  assert (Hsz : vint_size b = Z.of_nat (S n)) by (unfold vint_size; now rewrite Hm).
  rewrite (parse_vint_present (b :: be_bytes n x) 0 b).
  - rewrite Hsz, Hm. cbn [fst].
    replace (Z.to_nat (Z.of_nat (S n) - 1)) with n by lia.
    change (drop (Z.to_nat (0 + 1)) (b :: be_bytes n x)) with (be_bytes n x).
    rewrite take_ge by (rewrite be_bytes_length; lia).
    rewrite be_fold_be_bytes.
    set (P := 2 ^ (8 * Z.of_nat n)) in *. set (M := 2 ^ (7 - Z.of_nat n)) in *.
    assert (HP : 0 < P) by (apply Z.pow_pos_nonneg; lia).
    replace (M - 1) with (Z.ones (7 - Z.of_nat n))
      by (rewrite Z.ones_equiv; fold M; lia).
    rewrite Z.land_ones by lia. fold M. rewrite Hu.
    replace ((M + value / P) mod M) with (value / P).
    2: { rewrite <- (Z.mul_1_l M) at 1. rewrite Z.add_comm, Z.mod_add by lia.
         symmetry. apply Z.mod_small. lia. }
    assert (Hx : x mod P = value mod P).
    { unfold x. replace (2 ^ (7 * Z.of_nat (S n))) with (M * P).
      - rewrite Z.add_comm, Z.mod_add by lia. reflexivity.
      - unfold M, P. rewrite <- Z.pow_add_r by lia. f_equal. lia. }
    rewrite Hx. do 2 f_equal.
    rewrite (Z.div_mod value P) at 3 by lia. ring.
  - lia.
  - reflexivity.
  - lia.
  - rewrite Hsz. cbn [length]. rewrite be_bytes_length. lia.
Qed.

Lemma parse_vint_encode_vint_witness :
  parse_vint (encode_vint 3 0x1234) 0 = Ok (0x1234, 3).
Proof.
  apply (proj1 parse_vint_encode_vint 3%nat 0x1234).
  - lia.
  - vm_compute. split; [discriminate | reflexivity].
Defined.

(** ** The Segment lookup *)

Section TreeWalks.

Variable element_bool : Element -> bool.
Variable int_of_text : Value -> result Z.

Lemma find_segment_none (fragment_dom : list Element) :
  Forall (fun e => Element.id e <> 0x18538067) fragment_dom ->
  find_segment element_bool fragment_dom = Raise KeyError.
Proof.
  intros H. unfold find_segment.
  replace (List.find _ fragment_dom) with (@None Element); [reflexivity |].
  induction H as [| e l He _ IH]; [reflexivity |].
  cbn [List.find]. destruct (Z.eqb_spec (Element.id e) 0x18538067); [contradiction | exact IH].
Qed.

Lemma find_segment_first (fragment_dom : list Element) (seg : Element) :
  first_segment fragment_dom seg ->
  find_segment element_bool fragment_dom =
  if element_bool seg then Ok seg else Raise KeyError.
Proof.
  intros (pre & post & -> & Hpre & Hid). unfold find_segment.
  replace (List.find _ (pre ++ seg :: post)) with (Some seg); [reflexivity |].
  induction Hpre as [| e l He _ IH]; cbn [app List.find].
  - rewrite Hid. reflexivity.
  - destruct (Z.eqb_spec (Element.id e) 0x18538067); [contradiction | exact IH].
Qed.

Lemma first_segment_cons (e : Element) (l : list Element) :
  Element.id e = 0x18538067 -> first_segment (e :: l) e.
Proof. intros H. exists [], l. repeat split; [constructor | exact H]. Qed.

Lemma first_segment_skip (e seg : Element) (l : list Element) :
  Element.id e <> 0x18538067 -> first_segment l seg -> first_segment (e :: l) seg.
Proof.
  intros He (pre & post & -> & Hpre & Hid).
  exists (e :: pre), post. repeat split; [constructor; assumption | exact Hid].
Qed.

(** ** get_fragment_tags *)

Lemma simple_tag_elements_no_tags (seg : Element) :
  Forall (fun e => Element.id e <> 0x1254C367) (Element.children seg) ->
  simple_tag_elements seg = [].
Proof.
  unfold simple_tag_elements. generalize (Element.children seg).
  intros l H. induction H as [| e l He _ IH]; [reflexivity |].
  cbn [flat_map]. rewrite IH.
  destruct (Z.eqb_spec (Element.id e) 0x1254C367); [contradiction | reflexivity].
Qed.

(** The Segment lookup in [get_fragment_tags]: without a Segment-ID element
    at the top of the tree it fails with [KeyError]; when the Segment it
    finds is true under [bool] and has no Tags child, the result is the empty
    mapping. *)
Theorem get_fragment_tags_segment :
  (forall fragment_dom,
      Forall (fun e => Element.id e <> 0x18538067) fragment_dom ->
      get_fragment_tags element_bool fragment_dom = Raise KeyError)
  /\ (forall fragment_dom seg,
        first_segment fragment_dom seg ->
        element_bool seg = true ->
        Forall (fun e => Element.id e <> 0x1254C367) (Element.children seg) ->
        get_fragment_tags element_bool fragment_dom = Ok ∅).
Proof.
  split.
  - intros fragment_dom H. unfold get_fragment_tags.
    rewrite (find_segment_none _ H). reflexivity.
  - intros fragment_dom seg Hseg Hb Hno. unfold get_fragment_tags.
    rewrite (find_segment_first _ _ Hseg), Hb. cbn.
    rewrite (simple_tag_elements_no_tags _ Hno). reflexivity.
Qed.

(** ** get_simple_block_offset *)

Lemma scan_first_cluster_none (l : list Element) :
  Forall (fun e => Element.id e <> 0x1F43B675) l -> scan_first_cluster l = [].
Proof.
  intros H. induction H as [| e l He _ IH]; [reflexivity |].
  cbn [scan_first_cluster].
  destruct (Z.eqb_spec (Element.id e) 0x1F43B675); [contradiction | exact IH].
Qed.

Lemma scan_first_cluster_first (before after : list Element) (cluster : Element) :
  Forall (fun e => Element.id e <> 0x1F43B675) before ->
  Element.id cluster = 0x1F43B675 ->
  scan_first_cluster (before ++ cluster :: after) =
  map block_ref
      (List.filter (fun el => Element.id el =? 0xA3) (Element.children cluster)).
Proof.
  intros H Hid. induction H as [| e l He _ IH]; cbn [app scan_first_cluster].
  - rewrite Hid. reflexivity.
  - destruct (Z.eqb_spec (Element.id e) 0x1F43B675); [contradiction | exact IH].
Qed.

(** With a Segment found and true under [bool],
    [get_simple_block_offset] returns the [(payloadOffset, size)] pairs of
    the SimpleBlock children of the first Cluster child of the Segment, in
    tree order, whatever follows that Cluster among its siblings; without a
    Cluster child it returns the empty list. *)
Theorem get_simple_block_offset_first_cluster
        (fragment_dom : list Element) (seg : Element) :
  first_segment fragment_dom seg ->
  element_bool seg = true ->
  (forall before cluster after,
      Element.children seg = before ++ cluster :: after ->
      Forall (fun e => Element.id e <> 0x1F43B675) before ->
      Element.id cluster = 0x1F43B675 ->
      get_simple_block_offset element_bool fragment_dom =
      Ok (map block_ref
              (List.filter (fun el => Element.id el =? 0xA3)
                           (Element.children cluster))))
  /\ (Forall (fun e => Element.id e <> 0x1F43B675) (Element.children seg) ->
      get_simple_block_offset element_bool fragment_dom = Ok []).
Proof.
  intros Hseg Hb. unfold get_simple_block_offset.
  rewrite (find_segment_first _ _ Hseg), Hb. cbn. split.
  - intros before cluster after -> Hbefore Hid.
    rewrite (scan_first_cluster_first _ _ _ Hbefore Hid). reflexivity.
  - intros Hno. rewrite (scan_first_cluster_none _ Hno). reflexivity.
Qed.

(** ** get_audio_tracks *)

Lemma py_eq_str_true (v : Value) (s : string) :
  py_eq_str v s = true <-> v = VStr s.
Proof.
  destruct v as [| z | t | b]; cbn; try (split; [discriminate | congruence]).
  rewrite String.eqb_eq. split; congruence.
Qed.

Lemma py_eq_str_false (v : Value) (s : string) :
  v <> VStr s -> py_eq_str v s = false.
Proof.
  intros H. destruct (py_eq_str v s) eqn:E; [| reflexivity].
  apply py_eq_str_true in E. contradiction.
Qed.

Lemma scan_track_entry_entry (tracks : Value * Value) (el : Element) :
  Element.id el = 0xAE ->
  scan_track_entry tracks el =
  if py_eq_str (entry_name el) "AUDIO_FROM_CUSTOMER"
  then (entry_number el, snd tracks)
  else if py_eq_str (entry_name el) "AUDIO_TO_CUSTOMER"
       then (fst tracks, entry_number el)
       else tracks.
Proof.
  intros Hid. unfold scan_track_entry, entry_name, entry_number.
  rewrite Hid. cbn [Z.eqb Pos.eqb]. destruct (track_entry_fields el). reflexivity.
Qed.

Lemma scan_track_entry_unnamed (tracks : Value * Value) (el : Element) :
  entry_name el <> VStr "AUDIO_FROM_CUSTOMER" ->
  entry_name el <> VStr "AUDIO_TO_CUSTOMER" ->
  scan_track_entry tracks el = tracks.
Proof.
  intros Hfrom Hto. unfold scan_track_entry, entry_name in *.
  destruct (Element.id el =? 0xAE); [| reflexivity].
  destruct (track_entry_fields el) as [number name]. cbn [snd] in *.
  rewrite (py_eq_str_false _ _ Hfrom), (py_eq_str_false _ _ Hto). reflexivity.
Qed.

Lemma fold_scan_track_entry_filter (l : list Element) :
  forall tracks,
    fold_left scan_track_entry l tracks =
    fold_left scan_track_entry
              (List.filter (fun el => Element.id el =? 0xAE) l) tracks.
Proof.
  induction l as [| el l IH]; intros tracks; [reflexivity |].
  cbn [fold_left List.filter]. rewrite IH.
  destruct (Element.id el =? 0xAE) eqn:E; [reflexivity |].
  f_equal. unfold scan_track_entry. rewrite E. reflexivity.
Qed.

(** The two nested loops visit exactly the track entries, in order. *)
Lemma scan_tracks_entries (seg : Element) :
  scan_tracks seg =
  fold_left scan_track_entry (track_entries seg) (VInt 0, VInt 0).
Proof.
  unfold scan_tracks, track_entries.
  generalize (VInt 0, VInt 0). generalize (Element.children seg).
  induction l as [| element l IH]; intros tracks; [reflexivity |].
  cbn [fold_left flat_map]. rewrite fold_left_app, IH.
  destruct (Element.id element =? 0x1654AE6B); [| reflexivity].
  rewrite (fold_scan_track_entry_filter (Element.children element)). reflexivity.
Qed.

Lemma track_entries_id (seg e : Element) :
  In e (track_entries seg) -> Element.id e = 0xAE.
Proof.
  unfold track_entries. rewrite in_flat_map. intros (element & _ & He).
  destruct (Element.id element =? 0x1654AE6B); [| contradiction].
  apply filter_In in He. lia.
Qed.

Lemma fold_entries_no_to (entries : list Element) :
  forall tracks,
    (forall e, In e entries -> entry_name e <> VStr "AUDIO_TO_CUSTOMER") ->
    snd (fold_left scan_track_entry entries tracks) = snd tracks.
Proof.
  induction entries as [| e l IH]; intros tracks H; [reflexivity |].
  cbn [fold_left]. rewrite IH by (intros; apply H; now right).
  unfold scan_track_entry. destruct (Element.id e =? 0xAE); [| reflexivity].
  pose proof (H e (or_introl eq_refl)) as Hto. unfold entry_name in Hto.
  destruct (track_entry_fields e) as [number name]. cbn [snd] in Hto.
  destruct (py_eq_str name "AUDIO_FROM_CUSTOMER"); [reflexivity |].
  rewrite (py_eq_str_false _ _ Hto). reflexivity.
Qed.

Lemma fold_entries_no_from (entries : list Element) :
  forall tracks,
    (forall e, In e entries -> entry_name e <> VStr "AUDIO_FROM_CUSTOMER") ->
    fst (fold_left scan_track_entry entries tracks) = fst tracks.
Proof.
  induction entries as [| e l IH]; intros tracks H; [reflexivity |].
  cbn [fold_left]. rewrite IH by (intros; apply H; now right).
  unfold scan_track_entry. destruct (Element.id e =? 0xAE); [| reflexivity].
  pose proof (H e (or_introl eq_refl)) as Hfrom. unfold entry_name in Hfrom.
  destruct (track_entry_fields e) as [number name]. cbn [snd] in Hfrom.
  rewrite (py_eq_str_false _ _ Hfrom).
  destruct (py_eq_str name "AUDIO_TO_CUSTOMER"); reflexivity.
Qed.



(** What [get_audio_tracks] returns once the Segment is found. *)
Lemma get_audio_tracks_found (fragment_dom : list Element) (seg : Element) :
  first_segment fragment_dom seg ->
  element_bool seg = true ->
  get_audio_tracks element_bool int_of_text fragment_dom =
  (if py_eq_int (fst (scan_tracks seg)) 0 || py_eq_int (snd (scan_tracks seg)) 0
   then Ok (1, 2)
   else a ← py_int int_of_text (fst (scan_tracks seg));
        b ← py_int int_of_text (snd (scan_tracks seg));
        Ok (a, b)).
Proof.
  intros Hseg Hb. unfold get_audio_tracks.
  rewrite (find_segment_first _ _ Hseg), Hb. cbn.
  destruct (scan_tracks seg) as [a b]. cbn [fst snd].
  destruct (py_eq_int a 0 || py_eq_int b 0); reflexivity.
Qed.


(** ** Tag names *)

Lemma tag_name_missing (st : Element) :
  Forall (fun e => Element.id e <> 0x45A3) (Element.children st) ->
  tag_name st = VNone.
Proof.
  unfold tag_name, tag_fields.
  change VNone with (fst (VNone, VNone)) at 3. generalize (VNone, VNone).
  generalize (Element.children st). intros l p H. revert p.
  induction H as [| e l He _ IH]; intros [name value]; [reflexivity |].
  cbn [fold_left].
  destruct (Z.eqb_spec (Element.id e) 0x45A3); [contradiction |].
  destruct ((Element.id e =? 0x4487) || (Element.id e =? 0x4485));
    rewrite IH; reflexivity.
Qed.

Lemma add_simple_tag_unnamed (d : gmap Value Value) (st : Element) :
  py_truthy (tag_name st) = false -> add_simple_tag d st = d.
Proof.
  unfold add_simple_tag, tag_name. destruct (tag_fields st) as [name value].
  cbn [fst]. intros ->. reflexivity.
Qed.

Lemma simple_tags_dict_skip (before after : list Element) (st : Element) :
  py_truthy (tag_name st) = false ->
  simple_tags_dict (before ++ st :: after) = simple_tags_dict (before ++ after).
Proof.
  intros H. unfold simple_tags_dict. rewrite !fold_left_app. cbn [fold_left].
  rewrite (add_simple_tag_unnamed _ _ H). reflexivity.
Qed.

Lemma add_simple_tag_keys (d : gmap Value Value) (st : Element) (k : Value) :
  (forall k', is_Some (d !! k') -> py_truthy k' = true) ->
  is_Some (add_simple_tag d st !! k) -> py_truthy k = true.
Proof.
  intros Hd. unfold add_simple_tag. destruct (tag_fields st) as [name value].
  destruct (py_truthy name) eqn:E; [| apply Hd].
  rewrite lookup_insert_is_Some. intros [<- | [_ Hk]]; [exact E | apply Hd, Hk].
Qed.

Lemma fold_add_simple_tag_keys (l : list Element) :
  forall d : gmap Value Value,
    (forall k, is_Some (d !! k) -> py_truthy k = true) ->
    forall k, is_Some (fold_left add_simple_tag l d !! k) -> py_truthy k = true.
Proof.
  induction l as [| st l IH]; intros d Hd k; cbn [fold_left]; [apply Hd |].
  apply IH. intros k'. apply add_simple_tag_keys, Hd.
Qed.

(** C10: a SimpleTag whose tag name is the empty string adds nothing to the
    mapping [get_fragment_tags] returns, just as one without a TagName child;
    no key of that mapping is the empty string or [None]. *)
Theorem get_fragment_tags_empty_name :
  (forall fragment_dom seg before st after,
      first_segment fragment_dom seg ->
      element_bool seg = true ->
      simple_tag_elements seg = before ++ st :: after ->
      tag_name st = VStr "" ->
      get_fragment_tags element_bool fragment_dom =
      Ok (simple_tags_dict (before ++ after)))
  /\ (forall before st st' after,
        tag_name st = VStr "" ->
        Forall (fun e => Element.id e <> 0x45A3) (Element.children st') ->
        simple_tags_dict (before ++ st :: after) =
        simple_tags_dict (before ++ st' :: after))
  /\ (forall fragment_dom d k,
        get_fragment_tags element_bool fragment_dom = Ok d ->
        is_Some (d !! k) ->
        py_truthy k = true /\ k <> VStr "" /\ k <> VNone).
Proof.
  split; [| split].
  - intros fragment_dom seg before st after Hseg Hb Hst Hname.
    unfold get_fragment_tags. rewrite (find_segment_first _ _ Hseg), Hb. cbn.
    rewrite Hst, simple_tags_dict_skip by (rewrite Hname; reflexivity).
    reflexivity.
  - intros before st st' after Hname Hmissing.
    rewrite !simple_tags_dict_skip;
      rewrite ?Hname, ?(tag_name_missing _ Hmissing); reflexivity.
  - intros fragment_dom d k Hget Hk.
    assert (py_truthy k = true) as Ht.
    { unfold get_fragment_tags in Hget.
      destruct (find_segment element_bool fragment_dom) as [seg | e];
        [| discriminate].
      cbn in Hget. injection Hget as <-.
      revert Hk. apply fold_add_simple_tag_keys.
      intros k'. rewrite lookup_empty. intros [? ?]. discriminate. }
    split; [exact Ht |]. split; intros ->; discriminate.
Qed.

End TreeWalks.

(** ** The statements at work on the sample fragments *)

Lemma sample_first_segment : first_segment sample_fragment sample_segment.
Proof.
  apply first_segment_skip; [discriminate |].
  apply first_segment_cons. reflexivity.
Qed.

Lemma first_segment_singleton (seg : Element) :
  Element.id seg = 0x18538067 -> first_segment [seg] seg.
Proof. apply first_segment_cons. Qed.

Ltac each_entry He :=
  vm_compute in He;
  repeat (destruct He as [<- | He]; [| try contradiction]).

Lemma get_fragment_tags_segment_witness :
  get_fragment_tags object_bool [ebml_header] = Raise KeyError
  /\ get_fragment_tags len_bool [ebml_header; bare_segment] = Ok ∅.
Proof.
  split.
  - apply (proj1 (get_fragment_tags_segment object_bool)).
    repeat constructor. discriminate.
  - apply (proj2 (get_fragment_tags_segment len_bool) _ bare_segment).
    + apply first_segment_skip; [discriminate |].
      apply first_segment_cons. reflexivity.
    + reflexivity.
    + repeat constructor. discriminate.
Defined.

Lemma get_simple_block_offset_first_cluster_witness :
  get_simple_block_offset object_bool sample_fragment = Ok [(40, 10); (55, 12)]
  /\ get_simple_block_offset len_bool [bare_segment] = Ok [].
Proof.
  split.
  - refine (proj1 (get_simple_block_offset_first_cluster object_bool
                     sample_fragment sample_segment sample_first_segment eq_refl)
                  [master 0x1654AE6B
                     [track_entry 1 "AUDIO_FROM_CUSTOMER";
                      track_entry 2 "AUDIO_TO_CUSTOMER"];
                   master 0x1254C367
                     [master 0x7373 [simple_tag "k" "v"; simple_tag "" "w"]]]
                  (master 0x1F43B675
                     [block 40 10; leaf 0xE7 (VInt 0); block 55 12])
                  [master 0x1F43B675 [block 70 10]] eq_refl _ eq_refl).
    repeat constructor; discriminate.
  - apply (proj2 (get_simple_block_offset_first_cluster len_bool
                    [bare_segment] bare_segment
                    (first_segment_singleton bare_segment eq_refl) eq_refl)).
    repeat constructor. discriminate.
Defined.

(** Without a Segment the fallback does not apply: the lookup raises first. *)
Example get_audio_tracks_no_segment :
  get_audio_tracks object_bool no_text [ebml_header] = Raise KeyError
  /\ get_audio_tracks len_bool no_text [ebml_header] = Raise KeyError.
Proof. repeat split. Qed.


Lemma get_fragment_tags_empty_name_witness :
  get_fragment_tags object_bool sample_fragment
  = Ok (simple_tags_dict [simple_tag "k" "v"])
  /\ simple_tags_dict [simple_tag "k" "v"; simple_tag "" "w"]
     = simple_tags_dict [simple_tag "k" "v"; master 0x67C8 [leaf 0x4487 (VStr "w")]]
  /\ (py_truthy (VStr "k") = true /\ VStr "k" <> VStr "" /\ VStr "k" <> VNone).
Proof.
  destruct (get_fragment_tags_empty_name object_bool) as (Hskip & Hsame & Hkeys).
  split; [| split].
  - apply (Hskip sample_fragment sample_segment
                 [simple_tag "k" "v"] (simple_tag "" "w") []
                 sample_first_segment eq_refl eq_refl eq_refl).
  - apply (Hsame [simple_tag "k" "v"] (simple_tag "" "w")
                 (master 0x67C8 [leaf 0x4487 (VStr "w")]) [] eq_refl).
    repeat constructor. discriminate.
  - apply (Hkeys sample_fragment (simple_tags_dict (simple_tag_elements sample_segment))).
    + reflexivity.
    + exists (VStr "v"). vm_compute. reflexivity.
Defined.

(** Under the [__len__] reading of [bool(element)] a Segment without
    children is reported as missing, by all three walks. *)
Example empty_segment_len_bool :
  get_fragment_tags len_bool [master 0x18538067 []] = Raise KeyError
  /\ get_simple_block_offset len_bool [master 0x18538067 []] = Raise KeyError
  /\ get_audio_tracks len_bool no_text [master 0x18538067 []] = Raise KeyError.
Proof. repeat split. Qed.

Example empty_segment_object_bool :
  get_fragment_tags object_bool [master 0x18538067 []] = Ok ∅
  /\ get_simple_block_offset object_bool [master 0x18538067 []] = Ok []
  /\ get_audio_tracks object_bool no_text [master 0x18538067 []] = Ok (1, 2).
Proof. repeat split. Qed.

(** * Further properties *)

(** ** More on parse_vint *)

(** For a first byte with a set bit the mask left by the loop is
    [2 ^ (8 - size)], and the byte lies between the mask and twice the mask. *)
Lemma vint_marker_mask (b : byte) :
  vint_size b <= 8 ->
  fst (vint_marker b) = 2 ^ (8 - vint_size b)
  /\ 2 ^ (8 - vint_size b) <= byte.unsigned b < 2 * 2 ^ (8 - vint_size b).
Proof.
  unfold vint_size. rewrite vint_marker_log2.
  pose proof (byte.unsigned_range b) as Hb.
  destruct (Z.eqb_spec (byte.unsigned b) 0) as [E | NE]; cbn [fst snd]; [lia |].
  intros _. replace (8 - (8 - Z.log2 (byte.unsigned b)))
    with (Z.log2 (byte.unsigned b)) by lia.
  split; [reflexivity |].
  pose proof (Z.log2_spec (byte.unsigned b) ltac:(lia)) as Hl.
  rewrite Z.pow_succ_r in Hl by apply Z.log2_nonneg. lia.
Qed.

Lemma py_range_length (lo hi : Z) :
  Z.of_nat (length (py_range lo hi)) = Z.max 0 (hi - lo).
Proof. unfold py_range. rewrite length_map, length_seq. lia. Qed.

Lemma vint_value_bounds (data : list byte) (offset : Z) (idxs : list Z) :
  forall value r,
    0 <= value ->
    vint_value data offset value idxs = Ok r ->
    value * 2 ^ (8 * Z.of_nat (length idxs)) <= r
    < (value + 1) * 2 ^ (8 * Z.of_nat (length idxs)).
Proof.
  induction idxs as [| i idxs IH]; intros value r Hv Hr.
  - cbn in Hr. injection Hr as <-. cbn. lia.
  - cbn [vint_value] in Hr.
    destruct (py_index data (offset + i)) as [b | e]; [| discriminate].
    cbn in Hr. pose proof (byte.unsigned_range b) as Hb.
    change (2 ^ 8) with 256 in Hb.
    rewrite lor_shiftl_byte in Hr by lia.
    apply IH in Hr; [| lia].
    replace (8 * Z.of_nat (length (i :: idxs)))
      with (8 * Z.of_nat (length idxs) + 8) by (cbn [length]; lia).
    rewrite Z.pow_add_r by lia. change (2 ^ 8) with 256.
    assert (0 < 2 ^ (8 * Z.of_nat (length idxs))) by (apply Z.pow_pos_nonneg; lia).
    nia.
Qed.

(** X1: a decoded vint of [size] bytes carries at most [7 * size] bits:
    the value returned is non-negative and below [2 ^ (7 * size)]. *)
Theorem parse_vint_value_bound (data : list byte) (offset value size : Z) :
  parse_vint data offset = Ok (value, size) ->
  1 <= size <= 8 /\ 0 <= value < 2 ^ (7 * size).
Proof.
  intros Hp. destruct (parse_vint_ok_inv _ _ _ _ Hp) as (b & Hb & -> & Hr).
  split; [exact Hr |].
  rewrite (parse_vint_first _ _ _ Hb) in Hp.
  destruct (Z.ltb_spec 8 (vint_size b)) as [? | _]; [lia |].
  destruct (vint_marker_mask b ltac:(lia)) as (Hm & Hlo & Hhi).
  rewrite Hm in Hp.
  replace (2 ^ (8 - vint_size b) - 1) with (Z.ones (8 - vint_size b)) in Hp
    by (rewrite Z.ones_equiv; lia).
  rewrite Z.land_ones in Hp by lia.
  destruct (vint_value _ _ _ _) as [r | e] eqn:Hv; cbn in Hp; [| discriminate].
  injection Hp as <-.
  assert (0 < 2 ^ (8 - vint_size b)) as HM by (apply Z.pow_pos_nonneg; lia).
  pose proof (Z.mod_pos_bound (byte.unsigned b) _ HM) as Hmod.
  apply vint_value_bounds in Hv; [| lia].
  pose proof (py_range_length 1 (vint_size b)) as Hlen.
  replace (8 * Z.of_nat (length (py_range 1 (vint_size b))))
    with (8 * (vint_size b - 1)) in Hv by lia.
  assert (0 < 2 ^ (8 * (vint_size b - 1))) as HP by (apply Z.pow_pos_nonneg; lia).
  replace (2 ^ (7 * vint_size b))
    with (2 ^ (8 - vint_size b) * 2 ^ (8 * (vint_size b - 1)))
    by (rewrite <- Z.pow_add_r by lia; f_equal; lia).
  nia.
Qed.

Lemma parse_vint_value_bound_witness :
  1 <= 2 <= 8 /\ 0 <= 5 < 2 ^ (7 * 2).
Proof.
  apply (parse_vint_value_bound [Init.Byte.x40; Init.Byte.x05] 0 5 2).
  reflexivity.
Defined.

Lemma vint_value_ext (d1 d2 : list byte) (o1 o2 : Z) (idxs : list Z) :
  forall value,
    (forall i, In i idxs -> py_index d1 (o1 + i) = py_index d2 (o2 + i)) ->
    vint_value d1 o1 value idxs = vint_value d2 o2 value idxs.
Proof.
  induction idxs as [| i idxs IH]; intros value H; [reflexivity |].
  cbn [vint_value]. rewrite (H i) by now left.
  destruct (py_index d2 (o2 + i)) as [b | e]; [| reflexivity].
  cbn. apply IH. intros j Hj. apply H. now right.
Qed.

Lemma py_index_drop (data : list byte) (offset i : Z) :
  0 <= offset -> 0 <= i ->
  py_index data (offset + i) = py_index (drop (Z.to_nat offset) data) i.
Proof.
  intros Ho Hi. rewrite !py_index_nonneg by lia.
  rewrite lookup_drop. replace (Z.to_nat (offset + i))
    with (Z.to_nat offset + Z.to_nat i)%nat by lia.
  reflexivity.
Qed.

(** X2: decoding at a non-negative offset is decoding the rest of the buffer
    from its start, errors included. *)
Theorem parse_vint_at_offset (data : list byte) (offset : Z) :
  0 <= offset ->
  parse_vint data offset = parse_vint (drop (Z.to_nat offset) data) 0.
Proof.
  intros Ho. unfold parse_vint.
  rewrite <- (py_index_drop data offset 0) by lia.
  rewrite Z.add_0_r.
  destruct (py_index data offset) as [b | e]; [| reflexivity].
  cbn. destruct (vint_marker b) as [mask size].
  destruct (8 <? size); [reflexivity |].
  rewrite (vint_value_ext data (drop (Z.to_nat offset) data) offset 0);
    [reflexivity |].
  intros i Hi. apply in_py_range in Hi.
  rewrite (py_index_drop data offset i) by lia. reflexivity.
Qed.

Lemma parse_vint_at_offset_witness :
  parse_vint [Init.Byte.xff; Init.Byte.x40; Init.Byte.x05] 1
  = parse_vint [Init.Byte.x40; Init.Byte.x05] 0.
Proof.
  apply (parse_vint_at_offset [Init.Byte.xff; Init.Byte.x40; Init.Byte.x05] 1).
  lia.
Defined.

Lemma py_index_app (data rest : list byte) (i : Z) (b : byte) :
  0 <= i -> py_index data i = Ok b -> py_index (data ++ rest) i = Ok b.
Proof.
  intros Hi. rewrite !py_index_nonneg by lia.
  destruct (data !! Z.to_nat i) as [b' |] eqn:E; [| discriminate].
  rewrite (lookup_app_l_Some _ _ _ _ E). trivial.
Qed.

Lemma vint_value_app (data rest : list byte) (offset : Z) (idxs : list Z) :
  forall value r,
    (forall i, In i idxs -> 0 <= offset + i) ->
    vint_value data offset value idxs = Ok r ->
    vint_value (data ++ rest) offset value idxs = Ok r.
Proof.
  induction idxs as [| i idxs IH]; intros value r H Hr; [exact Hr |].
  cbn [vint_value] in *.
  destruct (py_index data (offset + i)) as [b | e] eqn:Hb; [| discriminate].
  rewrite (py_index_app _ rest _ _ (H i (or_introl eq_refl)) Hb).
  cbn in *. apply IH; [| exact Hr]. intros j Hj. apply H. now right.
Qed.

(** X3: a vint decoded at a non-negative offset does not depend on what
    follows it: with more bytes appended to the buffer the result is the
    same. *)
Theorem parse_vint_app (data rest : list byte) (offset value size : Z) :
  0 <= offset ->
  parse_vint data offset = Ok (value, size) ->
  parse_vint (data ++ rest) offset = Ok (value, size).
Proof.
  intros Ho Hp. unfold parse_vint in *.
  destruct (py_index data offset) as [b | e] eqn:Hb; [| discriminate].
  rewrite (py_index_app _ rest _ _ Ho Hb). cbn in *.
  destruct (vint_marker b) as [mask sz].
  destruct (8 <? sz); [discriminate |].
  destruct (vint_value data offset _ _) as [r | e] eqn:Hv; [| discriminate].
  apply (vint_value_app _ rest) in Hv; [rewrite Hv; exact Hp |].
  intros i Hi. apply in_py_range in Hi. lia.
Qed.

Lemma parse_vint_app_witness :
  parse_vint ([Init.Byte.x40; Init.Byte.x05] ++ [Init.Byte.xff]) 0 = Ok (5, 2).
Proof.
  apply (parse_vint_app [Init.Byte.x40; Init.Byte.x05] [Init.Byte.xff] 0 5 2).
  - lia.
  - reflexivity.
Defined.

(** ** The encoding is the only one *)

Lemma be_fold_split (l : list byte) :
  forall acc,
    be_fold acc l = acc * 2 ^ (8 * Z.of_nat (length l)) + be_fold 0 l
    /\ 0 <= be_fold 0 l < 2 ^ (8 * Z.of_nat (length l)).
Proof.
  induction l as [| b l IH]; intros acc.
  - cbn. lia.
  - unfold be_fold in *. cbn [fold_left length].
    pose proof (byte.unsigned_range b) as Hb. change (2 ^ 8) with 256 in Hb.
    rewrite !lor_shiftl_byte by lia.
    destruct (IH (acc * 256 + byte.unsigned b)) as [-> Hlow].
    destruct (IH (0 * 256 + byte.unsigned b)) as [-> _].
    replace (8 * Z.of_nat (S (length l))) with (8 * Z.of_nat (length l) + 8) by lia.
    rewrite Z.pow_add_r by lia. change (2 ^ 8) with 256.
    split; [ring |]. nia.
Qed.

Lemma be_fold_cons (b : byte) (l : list byte) :
  be_fold 0 (b :: l)
  = byte.unsigned b * 2 ^ (8 * Z.of_nat (length l)) + be_fold 0 l.
Proof.
  unfold be_fold at 1. cbn [fold_left].
  pose proof (byte.unsigned_range b) as Hb. change (2 ^ 8) with 256 in Hb.
  rewrite lor_shiftl_byte by lia. cbn [Z.mul Z.add].
  apply (be_fold_split l (byte.unsigned b)).
Qed.

(** Writing the big-endian number of a byte list back gives the list. *)
Lemma be_bytes_be_fold (l : list byte) :
  forall acc,
    be_bytes (length l) (acc * 2 ^ (8 * Z.of_nat (length l)) + be_fold 0 l) = l.
Proof.
  induction l as [| b l IH]; intros acc; [reflexivity |].
  cbn [length be_bytes].
  destruct (be_fold_split (b :: l) 0) as [_ Hrange].
  pose proof (be_fold_cons b l) as Hcons.
  destruct (be_fold_split l 0) as [_ Hlow].
  set (P := 2 ^ (8 * Z.of_nat (length l))) in *.
  assert (0 < P) as HP by (apply Z.pow_pos_nonneg; lia).
  replace (acc * 2 ^ (8 * Z.of_nat (S (length l))) + be_fold 0 (b :: l))
    with ((acc * 256 + byte.unsigned b) * P + be_fold 0 l).
  2: { rewrite Hcons.
       replace (8 * Z.of_nat (S (length l))) with (8 * Z.of_nat (length l) + 8) by lia.
       rewrite Z.pow_add_r by lia. fold P. change (2 ^ 8) with 256. ring. }
  f_equal.
  - apply byte.unsigned_inj.
    rewrite byte.unsigned_of_Z, Z.shiftr_div_pow2 by lia. fold P.
    rewrite Z.div_add_l, (Z.div_small (be_fold 0 l) P), Z.add_0_r by lia.
    unfold byte.wrap. change (2 ^ 8) with 256.
    rewrite Z.add_comm, Z.mod_add by lia.
    apply Z.mod_small. pose proof (byte.unsigned_range b) as Hb.
    change (2 ^ 8) with 256 in Hb. lia.
  - apply IH.
Qed.

(** X4: the bytes a vint was decoded from are the encoding of the value
    decoded: with [parse_vint_encode_vint], decoding and encoding are inverse
    to each other. *)
Theorem encode_vint_parse_vint (data : list byte) (offset value size : Z) :
  0 <= offset ->
  parse_vint data offset = Ok (value, size) ->
  encode_vint (Z.to_nat size) value
  = take (Z.to_nat size) (drop (Z.to_nat offset) data).
Proof.
  intros Ho Hp. destruct (parse_vint_ok_inv _ _ _ _ Hp) as (b & Hb & -> & Hr).
  destruct (Z.lt_ge_cases (Z.of_nat (length data)) (offset + vint_size b))
    as [Hshort | Hfull].
  { rewrite (parse_vint_short data offset b) in Hp by (lia || assumption).
    discriminate. }
  rewrite (parse_vint_present data offset b) in Hp by (lia || assumption).
  injection Hp as <-.
  destruct (vint_marker_mask b ltac:(lia)) as (Hm & Hlo & Hhi). rewrite Hm.
  rewrite py_index_nonneg in Hb by lia.
  destruct (data !! Z.to_nat offset) as [b' |] eqn:Hl; [| discriminate].
  injection Hb as ->.
  set (bs := take (Z.to_nat (vint_size b - 1)) (drop (Z.to_nat (offset + 1)) data)).
  assert (take (Z.to_nat (vint_size b)) (drop (Z.to_nat offset) data) = b :: bs)
    as ->.
  { rewrite (drop_S _ _ _ Hl).
    replace (Z.to_nat (vint_size b)) with (S (Z.to_nat (vint_size b - 1))) by lia.
    cbn [take]. unfold bs.
    replace (Z.to_nat (offset + 1)) with (S (Z.to_nat offset)) by lia.
    reflexivity. }
  assert (length bs = Z.to_nat (vint_size b - 1)) as Hlen.
  { unfold bs. rewrite length_take, length_drop. lia. }
  replace (2 ^ (8 - vint_size b) - 1) with (Z.ones (8 - vint_size b))
    by (rewrite Z.ones_equiv; lia).
  rewrite Z.land_ones by lia.
  assert (0 < 2 ^ (8 - vint_size b)) as HM by (apply Z.pow_pos_nonneg; lia).
  replace (byte.unsigned b mod 2 ^ (8 - vint_size b))
    with (byte.unsigned b - 2 ^ (8 - vint_size b)).
  2: { symmetry. rewrite <- (Z.mod_small (byte.unsigned b - _) (2 ^ (8 - vint_size b))) by lia.
       replace (byte.unsigned b)
         with (byte.unsigned b - 2 ^ (8 - vint_size b) + 1 * 2 ^ (8 - vint_size b)) at 1
         by ring.
       apply Z.mod_add. lia. }
  unfold encode_vint.
  destruct (be_fold_split bs (byte.unsigned b - 2 ^ (8 - vint_size b))) as [-> _].
  replace (Z.to_nat (vint_size b)) with (length (b :: bs)) by (cbn [length]; lia).
  etransitivity; [| apply (be_bytes_be_fold (b :: bs) 0)]. f_equal.
  rewrite be_fold_cons.
  replace (7 * Z.of_nat (length (b :: bs)))
    with ((8 - vint_size b) + 8 * Z.of_nat (length bs)) by (cbn [length]; lia).
  rewrite Z.pow_add_r by lia. ring.
Qed.

Lemma encode_vint_parse_vint_witness :
  encode_vint 2 5 = [Init.Byte.x40; Init.Byte.x05].
Proof.
  apply (encode_vint_parse_vint
           [Init.Byte.xff; Init.Byte.x40; Init.Byte.x05; Init.Byte.x00] 1 5 2).
  - lia.
  - reflexivity.
Defined.

(** ** Blocks built and taken apart *)

Lemma encode_vint_length (len : nat) (value : Z) :
  length (encode_vint len value) = len.
Proof. apply be_bytes_length. Qed.

(** Decoding an encoded vint that is followed by other bytes. *)
Lemma parse_vint_encoded (len : nat) (value : Z) (rest : list byte) :
  (1 <= len <= 8)%nat ->
  0 <= value < 2 ^ (7 * Z.of_nat len) ->
  parse_vint (encode_vint len value ++ rest) 0 = Ok (value, Z.of_nat len).
Proof.
  destruct len as [| n]; intros Hlen Hv; [lia |].
  destruct (encode_vint_first_byte n value ltac:(lia) Hv) as (Hu & Hq & Hm).
  unfold encode_vint. cbn [be_bytes app].
  set (x := 2 ^ (7 * Z.of_nat (S n)) + value) in *.
  set (b := byte.of_Z (Z.shiftr x (8 * Z.of_nat n))) in *.
  assert (vint_size b = Z.of_nat (S n)) as Hsz by (unfold vint_size; now rewrite Hm).
  rewrite (parse_vint_present (b :: be_bytes n x ++ rest) 0 b);
    [| lia | reflexivity | lia
     | rewrite Hsz; cbn [length]; rewrite length_app, be_bytes_length; lia].
  rewrite Hsz, Hm. cbn [fst].
  replace (Z.to_nat (Z.of_nat (S n) - 1)) with n by lia.
  change (drop (Z.to_nat (0 + 1)) (b :: be_bytes n x ++ rest))
    with (be_bytes n x ++ rest).
  rewrite take_app_length' by (symmetry; apply be_bytes_length).
  rewrite be_fold_be_bytes.
  set (P := 2 ^ (8 * Z.of_nat n)) in *. set (M := 2 ^ (7 - Z.of_nat n)) in *.
  assert (0 < P) as HP by (apply Z.pow_pos_nonneg; lia).
  replace (M - 1) with (Z.ones (7 - Z.of_nat n))
    by (rewrite Z.ones_equiv; fold M; lia).
  rewrite Z.land_ones by lia. fold M. rewrite Hu.
  replace ((M + value / P) mod M) with (value / P).
  2: { rewrite <- (Z.mul_1_l M) at 1. rewrite Z.add_comm, Z.mod_add by lia.
       symmetry. apply Z.mod_small. lia. }
  assert (x mod P = value mod P) as Hx.
  { unfold x. replace (2 ^ (7 * Z.of_nat (S n))) with (M * P).
    - rewrite Z.add_comm, Z.mod_add by lia. reflexivity.
    - unfold M, P. rewrite <- Z.pow_add_r by lia. f_equal. lia. }
  rewrite Hx. do 2 f_equal.
  rewrite (Z.div_mod value P) at 3 by lia. ring.
Qed.

(** X5: a SimpleBlock laid out as track vint, two timestamp bytes, flags
    byte, payload is taken apart again by [extract_simpleblock_data]: it
    returns the track number and the payload, whatever the timestamp and the
    flags are. *)
Theorem extract_simple_block_bytes (len : nat) (track_number : Z)
        (t1 t2 flags : byte) (payload : list byte) :
  (1 <= len <= 8)%nat ->
  0 <= track_number < 2 ^ (7 * Z.of_nat len) ->
  extract_simpleblock_data (simple_block_bytes len track_number t1 t2 flags payload)
  = Ok (track_number, payload).
Proof.
  intros Hlen Hv. unfold simple_block_bytes.
  rewrite (extract_simpleblock_data_ok _ track_number (Z.of_nat len))
    by (apply parse_vint_encoded; assumption).
  do 2 f_equal.
  change (t1 :: t2 :: flags :: payload) with ([t1; t2; flags] ++ payload).
  rewrite app_assoc. apply drop_app_length'.
  rewrite length_app, encode_vint_length. cbn [length]. lia.
Qed.

Lemma extract_simple_block_bytes_witness :
  extract_simpleblock_data
    (simple_block_bytes 2 300 Init.Byte.x00 Init.Byte.x14 Init.Byte.x80
       [Init.Byte.x01; Init.Byte.x02])
  = Ok (300, [Init.Byte.x01; Init.Byte.x02]).
Proof.
  apply (extract_simple_block_bytes 2 300).
  - lia.
  - vm_compute. split; [discriminate | reflexivity].
Defined.

(** X6: the ways [extract_simpleblock_data] can end. An empty block gives
    [IndexError]; a first byte [00] gives [ValueError]; a block shorter than
    the vint its first byte announces gives [IndexError]; every other block
    is decoded, the payload being what follows the vint and three more
    bytes. *)
Theorem extract_simpleblock_data_cases :
  extract_simpleblock_data [] = Raise IndexError
  /\ (forall b rest,
        (b = Init.Byte.x00 ->
         extract_simpleblock_data (b :: rest) = Raise ValueError)
        /\ (b <> Init.Byte.x00 ->
            Z.of_nat (length (b :: rest)) < vint_size b ->
            extract_simpleblock_data (b :: rest) = Raise IndexError)
        /\ (b <> Init.Byte.x00 ->
            vint_size b <= Z.of_nat (length (b :: rest)) ->
            exists track_number,
              extract_simpleblock_data (b :: rest)
              = Ok (track_number,
                    drop (Z.to_nat (vint_size b + 3)) (b :: rest)))).
Proof.
  split; [reflexivity |]. intros b rest.
  assert (py_index (b :: rest) 0 = Ok b) as Hb by reflexivity.
  assert (b <> Init.Byte.x00 -> vint_size b <= 8) as Hsz.
  { intros Hne. pose proof (marker_found_nonzero b Hne) as Hm.
    unfold marker_found, vint_size in *. destruct (vint_marker b) as [mask size].
    cbn [snd]. repeat (apply andb_prop in Hm; destruct Hm as [Hm ?]). lia. }
  split; [| split].
  - intros ->. reflexivity.
  - intros Hne Hshort. unfold extract_simpleblock_data.
    rewrite (parse_vint_short (b :: rest) 0 b) by (auto; lia). reflexivity.
  - intros Hne Hfull.
    pose proof (parse_vint_present (b :: rest) 0 b ltac:(lia) Hb (Hsz Hne)
                  ltac:(lia)) as Hp.
    set (track_number := be_fold _ _) in Hp. exists track_number.
    apply extract_simpleblock_data_ok, Hp.
Qed.

Lemma extract_simpleblock_data_cases_witness :
  extract_simpleblock_data [Init.Byte.x00; Init.Byte.x01] = Raise ValueError
  /\ extract_simpleblock_data [Init.Byte.x20; Init.Byte.x01] = Raise IndexError
  /\ (exists track_number,
         extract_simpleblock_data [Init.Byte.x82; Init.Byte.x00]
         = Ok (track_number, [])).
Proof.
  destruct extract_simpleblock_data_cases as [_ H].
  split; [| split].
  - apply (H Init.Byte.x00 [Init.Byte.x01]). reflexivity.
  - apply (H Init.Byte.x20 [Init.Byte.x01]); [discriminate | vm_compute; reflexivity].
  - apply (H Init.Byte.x82 [Init.Byte.x00]); [discriminate | vm_compute; discriminate].
Defined.

(** ** More on the tree walks *)

Section MoreTreeWalks.

Variable element_bool : Element -> bool.
Variable int_of_text : Value -> result Z.

Lemma first_segment_id (fragment_dom : list Element) (seg : Element) :
  first_segment fragment_dom seg -> Element.id seg = 0x18538067.
Proof. intros (pre & post & _ & _ & Hid). exact Hid. Qed.

(** X7: only the first Segment counts. Whatever stands before it (without
    the Segment ID) or after it, later Segments included, the three walks
    return what they return on that Segment alone. *)
Theorem walks_use_first_segment (fragment_dom : list Element) (seg : Element) :
  first_segment fragment_dom seg ->
  get_fragment_tags element_bool fragment_dom
  = get_fragment_tags element_bool [seg]
  /\ get_simple_block_offset element_bool fragment_dom
     = get_simple_block_offset element_bool [seg]
  /\ get_audio_tracks element_bool int_of_text fragment_dom
     = get_audio_tracks element_bool int_of_text [seg].
Proof.
  intros Hseg.
  pose proof (first_segment_singleton seg (first_segment_id _ _ Hseg)) as Hone.
  unfold get_fragment_tags, get_simple_block_offset, get_audio_tracks.
  rewrite (find_segment_first element_bool _ _ Hseg).
  rewrite (find_segment_first element_bool _ _ Hone).
  repeat split.
Qed.

(** ** The tag mapping *)

Lemma add_simple_tag_is_Some (d : gmap Value Value) (st : Element) (k : Value) :
  is_Some (add_simple_tag d st !! k)
  <-> is_Some (d !! k) \/ (py_truthy k = true /\ tag_name st = k).
Proof.
  unfold add_simple_tag, tag_name. destruct (tag_fields st) as [name value].
  cbn [fst]. destruct (py_truthy name) eqn:E.
  - rewrite lookup_insert_is_Some. split.
    + intros [<- | [_ H]]; [right; auto | left; exact H].
    + intros [H | [_ <-]]; [| left; reflexivity].
      destruct (decide (name = k)); [left; assumption | right; auto].
  - split; [left; assumption |].
    intros [H | [Hk <-]]; [exact H | congruence].
Qed.

Lemma fold_add_simple_tag_is_Some (l : list Element) :
  forall (d : gmap Value Value) k,
    is_Some (fold_left add_simple_tag l d !! k)
    <-> is_Some (d !! k)
        \/ (py_truthy k = true /\ exists st, In st l /\ tag_name st = k).
Proof.
  induction l as [| st l IH]; intros d k; cbn [fold_left].
  - split; [left; assumption |]. intros [H | (_ & st & [] & _)]. exact H.
  - rewrite IH, add_simple_tag_is_Some. split.
    + intros [[H | [Hk Hn]] | (Hk & st' & Hin & Hn)].
      * left; exact H.
      * right. split; [exact Hk |]. exists st. split; [now left | exact Hn].
      * right. split; [exact Hk |]. exists st'. split; [now right | exact Hn].
    + intros [H | (Hk & st' & [<- | Hin] & Hn)].
      * left; left; exact H.
      * left; right; auto.
      * right. split; [exact Hk |]. exists st'. auto.
Qed.

(** X8: the keys of the mapping [get_fragment_tags] returns are exactly the
    names, true under [if tag_name:], of the SimpleTag elements found under
    Segment, Tags, Tag. *)
Theorem get_fragment_tags_keys
        (fragment_dom : list Element) (seg : Element)
        (d : gmap Value Value) (k : Value) :
  first_segment fragment_dom seg ->
  element_bool seg = true ->
  get_fragment_tags element_bool fragment_dom = Ok d ->
  is_Some (d !! k)
  <-> py_truthy k = true
      /\ exists st, In st (simple_tag_elements seg) /\ tag_name st = k.
Proof.
  intros Hseg Hb Hget. unfold get_fragment_tags in Hget.
  rewrite (find_segment_first _ _ _ Hseg), Hb in Hget. cbn in Hget.
  injection Hget as <-. unfold simple_tags_dict.
  rewrite fold_add_simple_tag_is_Some, lookup_empty. split.
  - intros [[? H] | H]; [discriminate | exact H].
  - intros H. right. exact H.
Qed.

Lemma add_simple_tag_lookup_other (d : gmap Value Value) (st : Element) (k : Value) :
  tag_name st <> k -> add_simple_tag d st !! k = d !! k.
Proof.
  unfold add_simple_tag, tag_name. destruct (tag_fields st) as [name value].
  cbn [fst]. intros Hne. destruct (py_truthy name); [| reflexivity].
  apply lookup_insert_ne, Hne.
Qed.

Lemma fold_add_simple_tag_lookup_other (l : list Element) (k : Value) :
  forall d : gmap Value Value,
    (forall st, In st l -> tag_name st <> k) ->
    fold_left add_simple_tag l d !! k = d !! k.
Proof.
  induction l as [| st l IH]; intros d H; cbn [fold_left]; [reflexivity |].
  rewrite IH by (intros; apply H; now right).
  apply add_simple_tag_lookup_other, H. now left.
Qed.

Lemma tag_value_missing (st : Element) :
  Forall (fun e => Element.id e <> 0x4487 /\ Element.id e <> 0x4485)
         (Element.children st) ->
  tag_value st = VNone.
Proof.
  unfold tag_value, tag_fields.
  change VNone with (snd (VNone, VNone)) at 3. generalize (VNone, VNone).
  generalize (Element.children st). intros l p H. revert p.
  induction H as [| e l [He1 He2] _ IH]; intros [name value]; [reflexivity |].
  cbn [fold_left].
  destruct (Z.eqb_spec (Element.id e) 0x4487); [contradiction |].
  destruct (Z.eqb_spec (Element.id e) 0x4485); [contradiction |].
  cbn [orb]. destruct (Element.id e =? 0x45A3); rewrite IH; reflexivity.
Qed.

(** X9: among SimpleTags with the same name the last one wins: looking its
    name up in the mapping gives its value, which is [None] when it has
    neither a TagString nor a TagBinary child. *)
Theorem get_fragment_tags_last_wins
        (fragment_dom : list Element) (seg : Element)
        (before after : list Element) (st : Element) :
  first_segment fragment_dom seg ->
  element_bool seg = true ->
  simple_tag_elements seg = before ++ st :: after ->
  py_truthy (tag_name st) = true ->
  (forall st', In st' after -> tag_name st' <> tag_name st) ->
  exists d,
    get_fragment_tags element_bool fragment_dom = Ok d
    /\ d !! tag_name st = Some (tag_value st)
    /\ (Forall (fun e => Element.id e <> 0x4487 /\ Element.id e <> 0x4485)
               (Element.children st) ->
        d !! tag_name st = Some VNone).
Proof.
  intros Hseg Hb Hst Htrue Hafter. unfold get_fragment_tags.
  rewrite (find_segment_first _ _ _ Hseg), Hb. cbn.
  eexists. split; [reflexivity |].
  assert (simple_tags_dict (simple_tag_elements seg) !! tag_name st
          = Some (tag_value st)) as Hlook.
  { rewrite Hst. unfold simple_tags_dict. rewrite fold_left_app. cbn [fold_left].
    rewrite fold_add_simple_tag_lookup_other by exact Hafter.
    unfold add_simple_tag, tag_name, tag_value in *.
    destruct (tag_fields st) as [name value]. cbn [fst snd] in *.
    rewrite Htrue. apply lookup_insert_eq. }
  split; [exact Hlook |].
  intros Hno. rewrite Hlook, (tag_value_missing _ Hno). reflexivity.
Qed.

(** ** The last track entry of a role *)

Lemma fold_entries_last_from (before after : list Element) (e : Element) :
  forall tracks,
    Element.id e = 0xAE ->
    entry_name e = VStr "AUDIO_FROM_CUSTOMER" ->
    (forall e', In e' after -> entry_name e' <> VStr "AUDIO_FROM_CUSTOMER") ->
    fst (fold_left scan_track_entry (before ++ e :: after) tracks)
    = entry_number e.
Proof.
  intros tracks Hid Hname Hafter. rewrite fold_left_app. cbn [fold_left].
  rewrite fold_entries_no_from by exact Hafter.
  rewrite scan_track_entry_entry by exact Hid.
  rewrite Hname. reflexivity.
Qed.

Lemma fold_entries_last_to (before after : list Element) (e : Element) :
  forall tracks,
    Element.id e = 0xAE ->
    entry_name e = VStr "AUDIO_TO_CUSTOMER" ->
    (forall e', In e' after -> entry_name e' <> VStr "AUDIO_TO_CUSTOMER") ->
    snd (fold_left scan_track_entry (before ++ e :: after) tracks)
    = entry_number e.
Proof.
  intros tracks Hid Hname Hafter. rewrite fold_left_app. cbn [fold_left].
  rewrite fold_entries_no_to by exact Hafter.
  rewrite scan_track_entry_entry by exact Hid.
  rewrite Hname. reflexivity.
Qed.

Lemma scan_tracks_last_from (seg : Element) (before after : list Element)
      (e : Element) :
  track_entries seg = before ++ e :: after ->
  entry_name e = VStr "AUDIO_FROM_CUSTOMER" ->
  (forall e', In e' after -> entry_name e' <> VStr "AUDIO_FROM_CUSTOMER") ->
  fst (scan_tracks seg) = entry_number e.
Proof.
  intros Hl Hname Hafter. rewrite scan_tracks_entries, Hl.
  apply fold_entries_last_from; [| assumption | assumption].
  apply (track_entries_id seg). rewrite Hl. apply in_app_iff. right. now left.
Qed.

Lemma scan_tracks_last_to (seg : Element) (before after : list Element)
      (e : Element) :
  track_entries seg = before ++ e :: after ->
  entry_name e = VStr "AUDIO_TO_CUSTOMER" ->
  (forall e', In e' after -> entry_name e' <> VStr "AUDIO_TO_CUSTOMER") ->
  snd (scan_tracks seg) = entry_number e.
Proof.
  intros Hl Hname Hafter. rewrite scan_tracks_entries, Hl.
  apply fold_entries_last_to; [| assumption | assumption].
  apply (track_entries_id seg). rewrite Hl. apply in_app_iff. right. now left.
Qed.

Lemma entry_number_missing (el : Element) :
  Forall (fun e => Element.id e <> 0xD7) (Element.children el) ->
  entry_number el = VInt (-1).
Proof.
  unfold entry_number, track_entry_fields.
  change (VInt (-1)) with (fst (VInt (-1), VStr "")) at 2.
  generalize (VInt (-1), VStr ""). generalize (Element.children el).
  intros l p H. revert p.
  induction H as [| e l He _ IH]; intros [number name]; [reflexivity |].
  cbn [fold_left].
  destruct (Element.id e =? 0x536E); [rewrite IH; reflexivity |].
  destruct (Z.eqb_spec (Element.id e) 0xD7); [contradiction |].
  rewrite IH. reflexivity.
Qed.

(** X10: for each role the last TrackEntry carrying its name decides. With
    integer track numbers [n] and [m] on those two entries,
    [get_audio_tracks] returns [(n, m)], unless one of them is 0: a track
    number 0 counts as not found and the result is the fallback [(1, 2)]. *)
Theorem get_audio_tracks_last_entry
        (fragment_dom : list Element) (seg : Element)
        (before_from after_from before_to after_to : list Element)
        (e_from e_to : Element) (n m : Z) :
  first_segment fragment_dom seg ->
  element_bool seg = true ->
  track_entries seg = before_from ++ e_from :: after_from ->
  entry_name e_from = VStr "AUDIO_FROM_CUSTOMER" ->
  (forall e, In e after_from -> entry_name e <> VStr "AUDIO_FROM_CUSTOMER") ->
  track_entries seg = before_to ++ e_to :: after_to ->
  entry_name e_to = VStr "AUDIO_TO_CUSTOMER" ->
  (forall e, In e after_to -> entry_name e <> VStr "AUDIO_TO_CUSTOMER") ->
  entry_number e_from = VInt n ->
  entry_number e_to = VInt m ->
  get_audio_tracks element_bool int_of_text fragment_dom
  = Ok (if (n =? 0) || (m =? 0) then (1, 2) else (n, m)).
Proof.
  intros Hseg Hb Hfrom Hnf Haf Hto Hnt Hat Hn Hm.
  rewrite (get_audio_tracks_found _ _ _ _ Hseg Hb).
  rewrite (scan_tracks_last_from _ _ _ _ Hfrom Hnf Haf).
  rewrite (scan_tracks_last_to _ _ _ _ Hto Hnt Hat).
  rewrite Hn, Hm. cbn [py_eq_int py_int].
  destruct ((n =? 0) || (m =? 0)); reflexivity.
Qed.

(** X11: a TrackEntry that names the "from" role but has no TrackNumber
    child resolves the role to -1, and [get_audio_tracks] returns that -1
    beside the "to" track. *)
Theorem get_audio_tracks_no_track_number
        (fragment_dom : list Element) (seg : Element)
        (before_from after_from before_to after_to : list Element)
        (e_from e_to : Element) (m : Z) :
  first_segment fragment_dom seg ->
  element_bool seg = true ->
  track_entries seg = before_from ++ e_from :: after_from ->
  entry_name e_from = VStr "AUDIO_FROM_CUSTOMER" ->
  (forall e, In e after_from -> entry_name e <> VStr "AUDIO_FROM_CUSTOMER") ->
  Forall (fun e => Element.id e <> 0xD7) (Element.children e_from) ->
  track_entries seg = before_to ++ e_to :: after_to ->
  entry_name e_to = VStr "AUDIO_TO_CUSTOMER" ->
  (forall e, In e after_to -> entry_name e <> VStr "AUDIO_TO_CUSTOMER") ->
  entry_number e_to = VInt m ->
  m <> 0 ->
  get_audio_tracks element_bool int_of_text fragment_dom = Ok (-1, m).
Proof.
  intros Hseg Hb Hfrom Hnf Haf Hno Hto Hnt Hat Hm Hm0.
  rewrite (get_audio_tracks_found _ _ _ _ Hseg Hb).
  rewrite (scan_tracks_last_from _ _ _ _ Hfrom Hnf Haf).
  rewrite (scan_tracks_last_to _ _ _ _ Hto Hnt Hat).
  rewrite (entry_number_missing _ Hno), Hm. cbn [py_eq_int py_int].
  destruct (Z.eqb_spec m 0); [contradiction |]. reflexivity.
Qed.

End MoreTreeWalks.

(** ** The audio step *)

Lemma py_slice_middle (pre mid post : list byte) :
  py_slice (pre ++ mid ++ post)
           (Z.of_nat (length pre))
           (Z.of_nat (length pre) + Z.of_nat (length mid))
  = mid.
Proof.
  unfold py_slice. rewrite !length_app.
  destruct (Z.ltb_spec (Z.of_nat (length pre)) 0) as [? | _]; [lia |].
  destruct (Z.ltb_spec (Z.of_nat (length pre) + Z.of_nat (length mid)) 0)
    as [? | _]; [lia |].
  rewrite !Z.min_l by lia.
  replace (Z.to_nat (Z.of_nat (length pre))) with (length pre) by lia.
  rewrite drop_app_length.
  replace (Z.to_nat (_ + _ - _)) with (length mid) by lia.
  apply take_app_length.
Qed.

Lemma py_slice_empty (data : list byte) (offset size : Z) :
  0 <= offset ->
  size = 0 \/ (Z.of_nat (length data) <= offset /\ 0 <= size) ->
  py_slice data offset (offset + size) = [].
Proof.
  intros Ho H. unfold py_slice.
  destruct (Z.ltb_spec offset 0) as [? | _]; [lia |].
  destruct (Z.ltb_spec (offset + size) 0) as [? | _]; [lia |].
  replace (Z.to_nat (Z.min (offset + size) (Z.of_nat (length data))
                     - Z.min offset (Z.of_nat (length data)))) with O by lia.
  reflexivity.
Qed.

Lemma add_audio_block_decoded (fragment_bytes : list byte) (from_track to_track : Z)
      (st : audio) (ref : Z * Z) (track_number : Z) (payload : list byte) :
  decode_block fragment_bytes ref = Ok (track_number, payload) ->
  add_audio_block fragment_bytes from_track to_track st ref =
  Ok (mk_audio
        (audio_from_customer st
         ++ payloads_from from_track [(track_number, payload)])
        (audio_to_customer st
         ++ payloads_to from_track to_track [(track_number, payload)])).
Proof.
  unfold decode_block, add_audio_block, payloads_from, payloads_to.
  destruct ref as [offset size]. cbn [fst snd]. intros ->. cbn.
  destruct st as [from to]. cbn [audio_from_customer audio_to_customer].
  destruct (track_number =? from_track); cbn;
    [now rewrite !app_nil_r |].
  destruct (track_number =? to_track); cbn; now rewrite !app_nil_r.
Qed.

Lemma add_audio_block_raise (fragment_bytes : list byte) (from_track to_track : Z)
      (st : audio) (ref : Z * Z) (e : exn) :
  decode_block fragment_bytes ref = Raise e ->
  add_audio_block fragment_bytes from_track to_track st ref = Raise e.
Proof.
  unfold decode_block, add_audio_block. destruct ref as [offset size].
  cbn [fst snd]. intros ->. reflexivity.
Qed.

Lemma payloads_from_cons (from_track : Z) (b : Z * list byte)
      (blocks : list (Z * list byte)) :
  payloads_from from_track (b :: blocks)
  = payloads_from from_track [b] ++ payloads_from from_track blocks.
Proof.
  unfold payloads_from. cbn [List.filter].
  destruct (fst b =? from_track); cbn; [now rewrite app_nil_r | reflexivity].
Qed.

Lemma payloads_to_cons (from_track to_track : Z) (b : Z * list byte)
      (blocks : list (Z * list byte)) :
  payloads_to from_track to_track (b :: blocks)
  = payloads_to from_track to_track [b] ++ payloads_to from_track to_track blocks.
Proof.
  unfold payloads_to. cbn [List.filter].
  destruct (negb (fst b =? from_track) && (fst b =? to_track)); cbn;
    [now rewrite app_nil_r | reflexivity].
Qed.

(** While the blocks decode, the loop appends their payloads and goes on. *)
Lemma add_audio_blocks_decoded_app (fragment_bytes : list byte)
      (from_track to_track : Z) (refs rest : list (Z * Z))
      (blocks : list (Z * list byte)) :
  Forall2 (fun ref b => decode_block fragment_bytes ref = Ok b) refs blocks ->
  forall st,
    add_audio_blocks fragment_bytes from_track to_track st (refs ++ rest) =
    add_audio_blocks fragment_bytes from_track to_track
      (mk_audio (audio_from_customer st ++ payloads_from from_track blocks)
                (audio_to_customer st ++ payloads_to from_track to_track blocks))
      rest.
Proof.
  induction 1 as [| ref [track_number payload] refs blocks Hd _ IH]; intros st.
  - cbn [app]. unfold payloads_from, payloads_to. cbn.
    rewrite !app_nil_r. destruct st. reflexivity.
  - cbn [app add_audio_blocks].
    rewrite (add_audio_block_decoded _ _ _ _ _ _ _ Hd). rewrite IH.
    cbn [audio_from_customer audio_to_customer].
    rewrite (payloads_from_cons _ _ blocks), (payloads_to_cons _ _ _ blocks).
    rewrite !app_assoc. reflexivity.
Qed.

(** X12: when every referenced block decodes, the audio step is a
    demultiplexer: it appends to [audio_from_customer] the payloads of the
    blocks on the "from" track and to [audio_to_customer] those of the blocks
    on the "to" track (unless that is also the "from" track), each in block
    order, drops the blocks of other tracks and raises nothing. *)
Theorem add_audio_blocks_decoded (fragment_bytes : list byte)
        (from_track to_track : Z) (st : audio) (refs : list (Z * Z))
        (blocks : list (Z * list byte)) :
  Forall (fun ref => float_ok (snd ref)) refs ->
  Forall2 (fun ref b => decode_block fragment_bytes ref = Ok b) refs blocks ->
  add_audio_blocks fragment_bytes from_track to_track st refs =
  (mk_audio (audio_from_customer st ++ payloads_from from_track blocks)
            (audio_to_customer st ++ payloads_to from_track to_track blocks),
   None).
Proof.
  intros _ H. rewrite <- (app_nil_r refs).
  rewrite (add_audio_blocks_decoded_app _ _ _ _ [] _ H). reflexivity.
Qed.

(** X13: the first block that fails to decode ends the audio step with its
    exception: the payloads of the blocks before it have been appended, the
    blocks after it are not looked at. *)
Theorem add_audio_blocks_abort (fragment_bytes : list byte)
        (from_track to_track : Z) (st : audio)
        (before after : list (Z * Z)) (bad : Z * Z)
        (blocks : list (Z * list byte)) (e : exn) :
  Forall (fun ref => float_ok (snd ref)) before ->
  Forall2 (fun ref b => decode_block fragment_bytes ref = Ok b) before blocks ->
  decode_block fragment_bytes bad = Raise e ->
  add_audio_blocks fragment_bytes from_track to_track st (before ++ bad :: after) =
  (mk_audio (audio_from_customer st ++ payloads_from from_track blocks)
            (audio_to_customer st ++ payloads_to from_track to_track blocks),
   Some e).
Proof.
  intros _ H Hbad. rewrite (add_audio_blocks_decoded_app _ _ _ _ _ _ H).
  cbn [add_audio_blocks]. rewrite (add_audio_block_raise _ _ _ _ _ _ Hbad).
  reflexivity.
Qed.

Lemma add_audio_block_prefix (fragment_bytes : list byte) (from_track to_track : Z)
      (st st' : audio) (ref : Z * Z) :
  add_audio_block fragment_bytes from_track to_track st ref = Ok st' ->
  audio_from_customer st `prefix_of` audio_from_customer st'
  /\ audio_to_customer st `prefix_of` audio_to_customer st'.
Proof.
  unfold add_audio_block. destruct ref as [offset size].
  destruct (extract_simpleblock_data _) as [[track_number payload] | e];
    cbn; [| discriminate].
  destruct (track_number =? from_track);
    [| destruct (track_number =? to_track)];
    intros [= <-]; cbn; split; try reflexivity; apply prefix_app_r; reflexivity.
Qed.

Lemma add_audio_blocks_prefix (fragment_bytes : list byte) (from_track to_track : Z)
      (refs : list (Z * Z)) :
  forall st,
    audio_from_customer st
      `prefix_of` audio_from_customer
                    (fst (add_audio_blocks fragment_bytes from_track to_track st refs))
    /\ audio_to_customer st
         `prefix_of` audio_to_customer
                       (fst (add_audio_blocks fragment_bytes from_track to_track st refs)).
Proof.
  induction refs as [| ref refs IH]; intros st; cbn [add_audio_blocks].
  - split; reflexivity.
  - destruct (add_audio_block _ _ _ st ref) as [st' | e] eqn:E;
      [| split; reflexivity].
    destruct (add_audio_block_prefix _ _ _ _ _ _ E) as [Hf Ht].
    destruct (IH st') as [Hf' Ht'].
    split; etransitivity; eassumption.
Qed.

(** X14: the audio step only ever appends. However it ends, with or without
    an exception, each accumulator still starts with the bytes it held
    before. *)
Theorem add_audio_appends (element_bool : Element -> bool)
        (int_of_text : Value -> result Z)
        (fragment_bytes : list byte) (fragment_dom : list Element) (st : audio) :
  audio_from_customer st
    `prefix_of` audio_from_customer
                  (fst (add_audio element_bool int_of_text fragment_bytes fragment_dom st))
  /\ audio_to_customer st
       `prefix_of` audio_to_customer
                     (fst (add_audio element_bool int_of_text fragment_bytes fragment_dom st)).
Proof.
  unfold add_audio.
  destruct (get_simple_block_offset _ _) as [refs | e]; [| split; reflexivity].
  destruct (get_audio_tracks _ _ _) as [[from_track to_track] | e];
    [| split; reflexivity].
  apply add_audio_blocks_prefix.
Qed.

(** X15: a block reference of size 0, or one that starts at or behind the end
    of the fragment buffer, cuts out an empty block, and the turn of the loop
    raises [IndexError]. *)
Theorem add_audio_block_out_of_buffer (fragment_bytes : list byte)
        (from_track to_track : Z) (st : audio) (offset size : Z) :
  0 <= offset ->
  size = 0 \/ (Z.of_nat (length fragment_bytes) <= offset /\ 0 <= size) ->
  add_audio_block fragment_bytes from_track to_track st (offset, size)
  = Raise IndexError.
Proof.
  intros Ho H. unfold add_audio_block.
  rewrite (py_slice_empty _ _ _ Ho H). reflexivity.
Qed.

Lemma add_audio_block_out_of_buffer_witness :
  add_audio_block sample_bytes 1 2 no_audio (15, 5) = Raise IndexError.
Proof.
  apply (add_audio_block_out_of_buffer sample_bytes 1 2 no_audio 15 5).
  - lia.
  - right. vm_compute. split; discriminate.
Defined.

(** X16: a reference to a well-formed SimpleBlock lying in the fragment
    buffer, given by its offset and its length, appends the payload of the
    block to the accumulator of its track: "from" first, "to" otherwise, none
    for another track. *)
Theorem add_audio_block_in_buffer (pre post : list byte)
        (len : nat) (track_number : Z) (t1 t2 flags : byte) (payload : list byte)
        (from_track to_track : Z) (st : audio) :
  (1 <= len <= 8)%nat ->
  0 <= track_number < 2 ^ (7 * Z.of_nat len) ->
  float_ok
    (Z.of_nat (length (simple_block_bytes len track_number t1 t2 flags payload))) ->
  add_audio_block
    (pre ++ simple_block_bytes len track_number t1 t2 flags payload ++ post)
    from_track to_track st
    (Z.of_nat (length pre),
     Z.of_nat (length (simple_block_bytes len track_number t1 t2 flags payload)))
  = Ok (if track_number =? from_track
        then mk_audio (audio_from_customer st ++ payload) (audio_to_customer st)
        else if track_number =? to_track
             then mk_audio (audio_from_customer st) (audio_to_customer st ++ payload)
             else st).
Proof.
  intros Hlen Hv _. unfold add_audio_block. rewrite py_slice_middle.
  unfold simple_block_bytes.
  rewrite (extract_simpleblock_data_ok _ track_number (Z.of_nat len))
    by (apply parse_vint_encoded; assumption).
  change (t1 :: t2 :: flags :: payload) with ([t1; t2; flags] ++ payload).
  rewrite app_assoc, drop_app_length'
    by (rewrite length_app, encode_vint_length; cbn [length]; lia).
  cbn. destruct (track_number =? from_track); [reflexivity |].
  destruct (track_number =? to_track); reflexivity.
Qed.

Lemma add_audio_block_in_buffer_witness :
  add_audio_block
    ([Init.Byte.x1a; Init.Byte.x45]
     ++ simple_block_bytes 1 2 Init.Byte.x00 Init.Byte.x14 Init.Byte.x80
          [Init.Byte.xcc]
     ++ [Init.Byte.xff])
    1 2 no_audio (2, 5)
  = Ok (mk_audio [] [Init.Byte.xcc]).
Proof.
  apply (add_audio_block_in_buffer [Init.Byte.x1a; Init.Byte.x45] [Init.Byte.xff]
           1 2 Init.Byte.x00 Init.Byte.x14 Init.Byte.x80 [Init.Byte.xcc]
           1 2 no_audio).
  - lia.
  - vm_compute. split; [discriminate | reflexivity].
  - vm_compute. split; reflexivity.
Defined.

(** X17: when both roles resolve to the same track number, every payload of
    that track goes to [audio_from_customer]; [audio_to_customer] receives
    nothing. *)
Theorem add_audio_blocks_same_track (fragment_bytes : list byte) (track : Z)
        (refs : list (Z * Z)) (st : audio) :
  audio_to_customer (fst (add_audio_blocks fragment_bytes track track st refs))
  = audio_to_customer st.
Proof.
  revert st. induction refs as [| [offset size] refs IH]; intros st;
    cbn [add_audio_blocks]; [reflexivity |].
  unfold add_audio_block.
  destruct (extract_simpleblock_data _) as [[track_number payload] | e];
    cbn; [| reflexivity].
  destruct (track_number =? track); rewrite IH; reflexivity.
Qed.

(** ** The further statements at work on the sample fragments *)

Lemma walks_use_first_segment_witness :
  get_fragment_tags object_bool (sample_fragment ++ [bare_segment])
  = get_fragment_tags object_bool [sample_segment]
  /\ get_simple_block_offset object_bool (sample_fragment ++ [bare_segment])
     = get_simple_block_offset object_bool [sample_segment]
  /\ get_audio_tracks object_bool no_text (sample_fragment ++ [bare_segment])
     = get_audio_tracks object_bool no_text [sample_segment].
Proof.
  apply (walks_use_first_segment object_bool no_text
           (sample_fragment ++ [bare_segment]) sample_segment).
  exists [ebml_header], [bare_segment].
  repeat split. repeat constructor. discriminate.
Defined.

Lemma get_fragment_tags_keys_witness :
  is_Some (simple_tags_dict (simple_tag_elements sample_segment) !! VStr "k")
  <-> py_truthy (VStr "k") = true
      /\ exists st, In st (simple_tag_elements sample_segment)
                    /\ tag_name st = VStr "k".
Proof.
  apply (get_fragment_tags_keys object_bool sample_fragment sample_segment).
  - exact sample_first_segment.
  - reflexivity.
  - reflexivity.
Defined.

Lemma get_fragment_tags_last_wins_witness :
  exists d,
    get_fragment_tags len_bool [repeated_tag_segment] = Ok d
    /\ d !! VStr "k" = Some (VStr "v2").
Proof.
  destruct (get_fragment_tags_last_wins len_bool
              [repeated_tag_segment] repeated_tag_segment
              [simple_tag "k" "v1"; master 0x67C8 [leaf 0x45A3 (VStr "n")]]
              [] (simple_tag "k" "v2")) as (d & Hd & Hlook & _).
  - apply first_segment_singleton. reflexivity.
  - reflexivity.
  - reflexivity.
  - reflexivity.
  - intros st' [].
  - exists d. split; [exact Hd | exact Hlook].
Defined.

Lemma get_audio_tracks_last_entry_witness :
  get_audio_tracks object_bool no_text [repeated_role_segment] = Ok (5, 2).
Proof.
  apply (get_audio_tracks_last_entry object_bool no_text
           [repeated_role_segment] repeated_role_segment
           [track_entry 1 "AUDIO_FROM_CUSTOMER"; track_entry 2 "AUDIO_TO_CUSTOMER"]
           []
           [track_entry 1 "AUDIO_FROM_CUSTOMER"]
           [track_entry 5 "AUDIO_FROM_CUSTOMER"]
           (track_entry 5 "AUDIO_FROM_CUSTOMER")
           (track_entry 2 "AUDIO_TO_CUSTOMER") 5 2).
  - apply first_segment_singleton. reflexivity.
  - reflexivity.
  - reflexivity.
  - reflexivity.
  - intros e [].
  - reflexivity.
  - reflexivity.
  - intros e He. each_entry He. discriminate.
  - reflexivity.
  - reflexivity.
Defined.

Lemma get_audio_tracks_no_track_number_witness :
  get_audio_tracks len_bool no_text [unnumbered_role_segment] = Ok (-1, 2).
Proof.
  apply (get_audio_tracks_no_track_number len_bool no_text
           [unnumbered_role_segment] unnumbered_role_segment
           [] [track_entry 2 "AUDIO_TO_CUSTOMER"]
           [master 0xAE [leaf 0x536E (VStr "AUDIO_FROM_CUSTOMER")]] []
           (master 0xAE [leaf 0x536E (VStr "AUDIO_FROM_CUSTOMER")])
           (track_entry 2 "AUDIO_TO_CUSTOMER") 2).
  - apply first_segment_singleton. reflexivity.
  - reflexivity.
  - reflexivity.
  - reflexivity.
  - intros e He. each_entry He. discriminate.
  - repeat constructor. discriminate.
  - reflexivity.
  - reflexivity.
  - intros e [].
  - reflexivity.
  - discriminate.
Defined.

Lemma add_audio_blocks_decoded_witness :
  add_audio_blocks sample_bytes 1 2 no_audio [(4, 6); (10, 5)]
  = (mk_audio [Init.Byte.xaa; Init.Byte.xbb] [Init.Byte.xcc], None).
Proof.
  apply (add_audio_blocks_decoded sample_bytes 1 2 no_audio
           [(4, 6); (10, 5)]
           [(1, [Init.Byte.xaa; Init.Byte.xbb]); (2, [Init.Byte.xcc])]).
  - repeat constructor.
  - repeat constructor.
Defined.

Lemma add_audio_blocks_abort_witness :
  add_audio_blocks sample_bytes 1 2 no_audio [(4, 6); (15, 5); (10, 5)]
  = (mk_audio [Init.Byte.xaa; Init.Byte.xbb] [], Some IndexError).
Proof.
  apply (add_audio_blocks_abort sample_bytes 1 2 no_audio
           [(4, 6)] [(10, 5)] (15, 5)
           [(1, [Init.Byte.xaa; Init.Byte.xbb])] IndexError).
  - repeat constructor.
  - repeat constructor.
  - reflexivity.
Defined.

(** * A Segment without children *)

(** Under the truth value of ebmlite's master elements, [not segment_element]
    holds for a Segment that was found but has no children, and the lookup
    raises the error meant for a missing Segment. *)
Lemma find_segment_childless (fragment_dom : list Element) (seg : Element) :
  first_segment fragment_dom seg ->
  Element.children seg = [] ->
  find_segment len_bool fragment_dom = Raise KeyError.
Proof.
  intros Hseg Hnone. rewrite (find_segment_first len_bool _ _ Hseg).
  unfold len_bool. rewrite Hnone. reflexivity.
Qed.

Lemma childless_first_segment :
  first_segment [ebml_header; childless_segment] childless_segment.
Proof.
  apply first_segment_skip; [discriminate |].
  apply first_segment_cons. reflexivity.
Qed.

(** C6, where the processor departs from it: a Segment that is present but
    has no children holds no Tags container, yet [get_fragment_tags] raises
    [KeyError], "Segment Element required but not found", instead of
    returning the empty mapping. *)
Theorem get_fragment_tags_childless_segment
        (fragment_dom : list Element) (seg : Element) :
  first_segment fragment_dom seg ->
  Element.children seg = [] ->
  Forall (fun e => Element.id e <> 0x1254C367) (Element.children seg)
  /\ get_fragment_tags len_bool fragment_dom = Raise KeyError.
Proof.
  intros Hseg Hnone. split; [rewrite Hnone; constructor |].
  unfold get_fragment_tags. rewrite (find_segment_childless _ _ Hseg Hnone).
  reflexivity.
Qed.

Lemma get_fragment_tags_childless_segment_witness :
  Forall (fun e => Element.id e <> 0x1254C367) (Element.children childless_segment)
  /\ get_fragment_tags len_bool [ebml_header; childless_segment] = Raise KeyError.
Proof.
  apply (get_fragment_tags_childless_segment
           [ebml_header; childless_segment] childless_segment).
  - exact childless_first_segment.
  - reflexivity.
Defined.

(** C7, where the processor departs from it: a Segment that is present but
    has no children has no Cluster child, yet [get_simple_block_offset]
    raises [KeyError], "Segment Element required but not found", instead of
    returning the empty list. *)
Theorem get_simple_block_offset_childless_segment
        (fragment_dom : list Element) (seg : Element) :
  first_segment fragment_dom seg ->
  Element.children seg = [] ->
  Forall (fun e => Element.id e <> 0x1F43B675) (Element.children seg)
  /\ get_simple_block_offset len_bool fragment_dom = Raise KeyError.
Proof.
  intros Hseg Hnone. split; [rewrite Hnone; constructor |].
  unfold get_simple_block_offset.
  rewrite (find_segment_childless _ _ Hseg Hnone). reflexivity.
Qed.

Lemma get_simple_block_offset_childless_segment_witness :
  Forall (fun e => Element.id e <> 0x1F43B675) (Element.children childless_segment)
  /\ get_simple_block_offset len_bool [ebml_header; childless_segment]
     = Raise KeyError.
Proof.
  apply (get_simple_block_offset_childless_segment
           [ebml_header; childless_segment] childless_segment).
  - exact childless_first_segment.
  - reflexivity.
Defined.

(** * Resolving the two roles *)

(** C5, as the processor behaves: for a Segment that the lookup accepts, when
    the last TrackEntry named "AUDIO_FROM_CUSTOMER" carries track number 1
    and the last one named "AUDIO_TO_CUSTOMER" carries track number 2, both
    roles are resolved, to [(1, 2)], and that is what [get_audio_tracks]
    returns; when no entry carries either name, both roles are still 0 after
    the scan and [get_audio_tracks] returns the fallback [(1, 2)] instead of
    failing; and an entry whose name is not exactly one of the two strings
    leaves both roles untouched. *)
Theorem get_audio_tracks_resolve
        (element_bool : Element -> bool) (int_of_text : Value -> result Z)
        (fragment_dom : list Element) (seg : Element) :
  first_segment fragment_dom seg ->
  element_bool seg = true ->
  (forall before_from e_from after_from before_to e_to after_to,
      track_entries seg = before_from ++ e_from :: after_from ->
      entry_name e_from = VStr "AUDIO_FROM_CUSTOMER" ->
      (forall e, In e after_from ->
                 entry_name e <> VStr "AUDIO_FROM_CUSTOMER") ->
      entry_number e_from = VInt 1 ->
      track_entries seg = before_to ++ e_to :: after_to ->
      entry_name e_to = VStr "AUDIO_TO_CUSTOMER" ->
      (forall e, In e after_to -> entry_name e <> VStr "AUDIO_TO_CUSTOMER") ->
      entry_number e_to = VInt 2 ->
      scan_tracks seg = (VInt 1, VInt 2)
      /\ get_audio_tracks element_bool int_of_text fragment_dom = Ok (1, 2))
  /\ ((forall e, In e (track_entries seg) ->
                 entry_name e <> VStr "AUDIO_FROM_CUSTOMER"
                 /\ entry_name e <> VStr "AUDIO_TO_CUSTOMER") ->
      scan_tracks seg = (VInt 0, VInt 0)
      /\ get_audio_tracks element_bool int_of_text fragment_dom = Ok (1, 2))
  /\ (forall tracks el,
        entry_name el <> VStr "AUDIO_FROM_CUSTOMER" ->
        entry_name el <> VStr "AUDIO_TO_CUSTOMER" ->
        scan_track_entry tracks el = tracks).
Proof.
  intros Hseg Hb. rewrite (get_audio_tracks_found _ _ _ _ Hseg Hb).
  split; [| split].
  - intros bf ef af bt et at_ Hfrom Hnf Haf Hn Hto Hnt Hat Hm.
    pose proof (scan_tracks_last_from _ _ _ _ Hfrom Hnf Haf) as Hfst.
    pose proof (scan_tracks_last_to _ _ _ _ Hto Hnt Hat) as Hsnd.
    rewrite Hn in Hfst. rewrite Hm in Hsnd.
    destruct (scan_tracks seg) as [a b]. cbn [fst snd] in *. subst a b.
    split; reflexivity.
  - intros Hnone.
    assert (fst (scan_tracks seg) = VInt 0) as Hfst.
    { rewrite scan_tracks_entries.
      apply (fold_entries_no_from _ (VInt 0, VInt 0)). intros e He.
      apply Hnone, He. }
    assert (snd (scan_tracks seg) = VInt 0) as Hsnd.
    { rewrite scan_tracks_entries.
      apply (fold_entries_no_to _ (VInt 0, VInt 0)). intros e He.
      apply Hnone, He. }
    destruct (scan_tracks seg) as [a b]. cbn [fst snd] in *. subst a b.
    split; reflexivity.
  - apply scan_track_entry_unnamed.
Qed.

Lemma get_audio_tracks_resolve_witness :
  (scan_tracks sample_segment = (VInt 1, VInt 2)
   /\ get_audio_tracks len_bool no_text sample_fragment = Ok (1, 2))
  /\ (scan_tracks bare_segment = (VInt 0, VInt 0)
      /\ get_audio_tracks len_bool no_text [bare_segment] = Ok (1, 2)).
Proof.
  split.
  - apply (proj1 (get_audio_tracks_resolve len_bool no_text
                    sample_fragment sample_segment sample_first_segment eq_refl)
                 [] (track_entry 1 "AUDIO_FROM_CUSTOMER")
                 [track_entry 2 "AUDIO_TO_CUSTOMER"]
                 [track_entry 1 "AUDIO_FROM_CUSTOMER"]
                 (track_entry 2 "AUDIO_TO_CUSTOMER") []).
    + reflexivity.
    + reflexivity.
    + intros e He. each_entry He. discriminate.
    + reflexivity.
    + reflexivity.
    + reflexivity.
    + intros e [].
    + reflexivity.
  - apply (proj1 (proj2 (get_audio_tracks_resolve len_bool no_text
                           [bare_segment] bare_segment
                           (first_segment_singleton bare_segment eq_refl)
                           eq_refl))).
    intros e He. each_entry He; split; discriminate.
Defined.

(** C5 as stated fails in two places. A Tracks section holding the entries
    "AUDIO_FROM_CUSTOMER" on track 1 and "AUDIO_TO_CUSTOMER" on track 2, and
    then "AUDIO_FROM_CUSTOMER" again on track 5, gives [(5, 2)]: the last
    entry of a name decides. And a Segment without children, in which no
    TrackEntry carries a role name, gives [KeyError], not the fallback. *)
Lemma get_audio_tracks_resolve_counterexample :
  (In (track_entry 1 "AUDIO_FROM_CUSTOMER") (track_entries repeated_role_segment)
   /\ In (track_entry 2 "AUDIO_TO_CUSTOMER") (track_entries repeated_role_segment)
   /\ get_audio_tracks len_bool no_text [ebml_header; repeated_role_segment]
      = Ok (5, 2)
   /\ get_audio_tracks len_bool no_text [ebml_header; repeated_role_segment]
      <> Ok (1, 2))
  /\ (track_entries childless_segment = []
      /\ get_audio_tracks len_bool no_text [ebml_header; childless_segment]
         = Raise KeyError
      /\ get_audio_tracks len_bool no_text [ebml_header; childless_segment]
         <> Ok (1, 2)).
Proof.
  repeat split; try discriminate.
  - now left.
  - right. now left.
Qed.
